(** * Address form service: validation schema, in-memory store and HTTP routes

    A shallow embedding of the server side of the address form:
    - [shared/schema.ts]: the zod insert schema of an address;
    - [server/storage.ts]: the in-memory store [MemStorage];
    - [server/routes.ts]: the four Express handlers.

    JavaScript strings are sequences of UTF-16 code units, [length] counts
    code units; JSON values are an inductive type; an absent property or
    parameter ([undefined]) is [None].  The zod combinators used by the schema
    are embedded as parsing functions that follow zod's [_parse] methods:
    issues are appended to a shared list in evaluation order and a parse
    returns one of the three statuses valid, dirty and aborted. *)

From Stdlib Require Import List ZArith NArith QArith Lia Bool String Ascii Sorted.
Import ListNotations.

Close Scope Q_scope.
Open Scope nat_scope.

Set Implicit Arguments.
Set Warnings "-register-all".

(** ** JavaScript values *)

Module JS.

(** A string is its list of UTF-16 code units. *)
Definition jsstring := list N.

(** A source literal (all literals of the program are ASCII). *)
Definition u16 (s : string) : jsstring :=
  List.map N_of_ascii (list_ascii_of_string s).

Fixpoint str_eqb (a b : jsstring) : bool :=
  match a, b with
  | [], [] => true
  | x :: a', y :: b' => N.eqb x y && str_eqb a' b'
  | _, _ => false
  end.

(** [a.startsWith(b)] and [a.includes(b)] on strings. *)
Fixpoint starts_with (a b : jsstring) : bool :=
  match b, a with
  | [], _ => true
  | y :: b', x :: a' => N.eqb x y && starts_with a' b'
  | _ :: _, [] => false
  end.

Fixpoint str_includes (a b : jsstring) : bool :=
  starts_with a b ||
  match a with
  | [] => false
  | _ :: a' => str_includes a' b
  end.

(** Whether a string is well-formed UTF-16: every high surrogate is
    followed by a low one and no low surrogate stands alone. *)
Definition high_surrogate (c : N) : bool := ((55296 <=? c) && (c <=? 56319))%N.

Definition low_surrogate (c : N) : bool := ((56320 <=? c) && (c <=? 57343))%N.

Fixpoint well_formed (s : jsstring) : bool :=
  match s with
  | [] => true
  | c :: s' =>
      if high_surrogate c then
        match s' with
        | d :: s'' => low_surrogate d && well_formed s''
        | [] => false
        end
      else if low_surrogate c then false
      else well_formed s'
  end.

(** WhiteSpace and LineTerminator code units, the ones [trim] removes. *)
Definition is_whitespace (c : N) : bool :=
  ((9 <=? c) && (c <=? 13) || (c =? 32) || (c =? 160) || (c =? 5760)
   || (8192 <=? c) && (c <=? 8202) || (c =? 8232) || (c =? 8233)
   || (c =? 8239) || (c =? 8287) || (c =? 12288) || (c =? 65279))%N.

Fixpoint trim_start (s : jsstring) : jsstring :=
  match s with
  | c :: s' => if is_whitespace c then trim_start s' else s
  | [] => []
  end.

Definition trim (s : jsstring) : jsstring :=
  rev (trim_start (rev (trim_start s))).

(** JSON values, as [JSON.parse] and the body parser produce them. *)
Inductive json :=
| JNull
| JBool (b : bool)
| JNum (q : Q)
| JStr (s : jsstring)
| JArr (l : list json)
| JObj (o : list (jsstring * json)).

(** A JavaScript value that may be [undefined]. *)
Definition value := option json.

(** Own properties of an object, by key. *)
Fixpoint lookup (A : Type) (k : jsstring) (o : list (jsstring * A)) : option A :=
  match o with
  | [] => None
  | (k', v) :: o' => if str_eqb k k' then Some v else lookup k o'
  end.

(** ToBoolean. *)
Definition truthy (v : value) : bool :=
  match v with
  | None | Some JNull => false
  | Some (JBool b) => b
  | Some (JNum q) => negb (Qeq_bool q 0)
  | Some (JStr s) => match s with [] => false | _ => true end
  | Some (JArr _) | Some (JObj _) => true
  end.

(** [a || b] *)
Definition or_else (a b : value) : value := if truthy a then a else b.

(** [v == null], the test behind [?.] *)
Definition nullish (v : value) : bool :=
  match v with
  | None | Some JNull => true
  | _ => false
  end.

(** A [Map<number, V>]: entries in insertion order, keys unique. *)
Definition Map (V : Type) := list (Z * V).

Fixpoint Map_get (V : Type) (m : Map V) (k : Z) : option V :=
  match m with
  | [] => None
  | (k', v) :: m' => if Z.eqb k k' then Some v else Map_get m' k
  end.

(** [m.set(k, v)]: an existing key keeps its position, a new key goes last. *)
Fixpoint Map_set (V : Type) (m : Map V) (k : Z) (v : V) : Map V :=
  match m with
  | [] => [(k, v)]
  | (k', v') :: m' =>
      if Z.eqb k k' then (k, v) :: m' else (k', v') :: Map_set m' k v
  end.

Definition Map_values (V : Type) (m : Map V) : list V := List.map snd m.

End JS.

Import JS.

(** ** Regular expressions *)

Module RegExp.

(** The fragment of the pattern language the schema uses: character
    classes, concatenation, alternation ([?] is alternation with the empty
    word, [{n}] is n-fold concatenation). *)
Inductive regex :=
| Void
| Eps
| Class (p : N -> bool)
| Cat (r s : regex)
| Alt (r s : regex).

Fixpoint nullable (r : regex) : bool :=
  match r with
  | Void => false
  | Eps => true
  | Class _ => false
  | Cat r s => nullable r && nullable s
  | Alt r s => nullable r || nullable s
  end.

Fixpoint deriv (c : N) (r : regex) : regex :=
  match r with
  | Void | Eps => Void
  | Class p => if p c then Eps else Void
  | Cat r s =>
      if nullable r then Alt (Cat (deriv c r) s) (deriv c s)
      else Cat (deriv c r) s
  | Alt r s => Alt (deriv c r) (deriv c s)
  end.

Fixpoint matches (r : regex) (s : jsstring) : bool :=
  match s with
  | [] => nullable r
  | c :: s' => matches (deriv c r) s'
  end.

Fixpoint times (n : nat) (r : regex) : regex :=
  match n with
  | O => Eps
  | S n' => Cat r (times n' r)
  end.

Definition opt (r : regex) : regex := Alt r Eps.

(** [\d] without the [v] or [i] flags: the ten ASCII digits. *)
Definition digit (c : N) : bool := ((48 <=? c) && (c <=? 57))%N.

Definition chr (a : ascii) : regex := Class (N.eqb (N_of_ascii a)).

(** [/^body$/.test(s)]: with both anchors and no [m] flag the search
    succeeds exactly when the whole of [s] matches [body]. *)
Definition test (body : regex) (s : jsstring) : bool := matches body s.

(** The words of a pattern, declaratively. *)
Inductive Matches : regex -> jsstring -> Prop :=
| MEps : Matches Eps []
| MClass p c : p c = true -> Matches (Class p) [c]
| MCat r s u v : Matches r u -> Matches s v -> Matches (Cat r s) (u ++ v)
| MAltL r s u : Matches r u -> Matches (Alt r s) u
| MAltR r s u : Matches s u -> Matches (Alt r s) u.

End RegExp.

Import RegExp.

(** ** The zod combinators of the schema *)

Module Zod.

Inductive ZodParsedType :=
| PTstring | PTnumber | PTboolean | PTnull | PTarray | PTobject | PTundefined.

(** [getParsedType], restricted to the values a request body can hold. *)
Definition getParsedType (data : value) : ZodParsedType :=
  match data with
  | None => PTundefined
  | Some JNull => PTnull
  | Some (JBool _) => PTboolean
  | Some (JNum _) => PTnumber
  | Some (JStr _) => PTstring
  | Some (JArr _) => PTarray
  | Some (JObj _) => PTobject
  end.

Definition type_name (t : ZodParsedType) : jsstring :=
  u16 match t with
      | PTstring => "string"
      | PTnumber => "number"
      | PTboolean => "boolean"
      | PTnull => "null"
      | PTarray => "array"
      | PTobject => "object"
      | PTundefined => "undefined"
      end.

(** An issue: its code, the path of the offending value and the message.
    (The code-specific extra properties of an issue are left out.) *)
Record ZodIssue := {
  code : jsstring;
  path : list jsstring;
  message : jsstring
}.

(** The three parse statuses, with the value carried by the first two. *)
Inductive ParseReturn (A : Type) :=
| OK (a : A)
| DIRTY (a : A)
| INVALID.

Arguments INVALID {A}.

(** A parse: the issues it added to the context, then its status. *)
Definition Parse (A : Type) : Type := list ZodIssue * ParseReturn A.

(** A schema, as its [_parse] method: path of the input, then the input. *)
Definition ZodType (A : Type) : Type := list jsstring -> value -> Parse A.

(** The default error map, for [invalid_type]. *)
Definition invalid_type (expected : jsstring) (pth : list jsstring)
    (data : value) : ZodIssue :=
  {| code := u16 "invalid_type";
     path := pth;
     message :=
       match getParsedType data with
       | PTundefined => u16 "Required"
       | t => u16 "Expected " ++ expected ++ u16 ", received " ++ type_name t
       end |}.

(** [util.joinValues] on string options. *)
Fixpoint joinValues (vs : list jsstring) : jsstring :=
  match vs with
  | [] => []
  | [v] => u16 "'" ++ v ++ u16 "'"
  | v :: vs' => u16 "'" ++ v ++ u16 "' | " ++ joinValues vs'
  end.

(** *** [z.string()] with its checks *)

Inductive ZodStringCheck :=
| check_min (value : nat) (msg : jsstring)
| check_regex (re : regex) (msg : jsstring).

(** One check of [ZodString._parse]: the issue it adds, if any. *)
Definition run_check (pth : list jsstring) (s : jsstring)
    (c : ZodStringCheck) : list ZodIssue :=
  match c with
  | check_min n msg =>
      if Nat.ltb (List.length s) n
      then [ {| code := u16 "too_small"; path := pth; message := msg |} ]
      else []
  | check_regex re msg =>
      if RegExp.test re s then []
      else [ {| code := u16 "invalid_string"; path := pth; message := msg |} ]
  end.

(** [ZodString._parse]: a non-string aborts; on a string every check runs,
    each failing one adds its issue and dirties the status. *)
Definition ZodString (checks : list ZodStringCheck) : ZodType jsstring :=
  fun pth data =>
    match data with
    | Some (JStr s) =>
        let issues := flat_map (run_check pth s) checks in
        (issues, match issues with [] => OK s | _ :: _ => DIRTY s end)
    | _ => ([invalid_type (u16 "string") pth data], INVALID)
    end.

(** [.min(n, message)] and [.regex(re, message)] append a check. *)
Definition min (n : nat) (msg : string) (checks : list ZodStringCheck) :=
  checks ++ [check_min n (u16 msg)].

Definition regex_check (re : regex) (msg : string)
    (checks : list ZodStringCheck) :=
  checks ++ [check_regex re (u16 msg)].

(** [ZodOptional._parse] *)
Definition ZodOptional (A : Type) (inner : ZodType A) : ZodType (option A) :=
  fun pth data =>
    match data with
    | None => ([], OK None)
    | Some _ =>
        let (issues, r) := inner pth data in
        (issues,
         match r with
         | OK a => OK (Some a)
         | DIRTY a => DIRTY (Some a)
         | INVALID => INVALID
         end)
    end.

(** [ZodDefault._parse]: [undefined] is replaced by the default value. *)
Definition ZodDefault (A : Type) (inner : ZodType A) (d : json) : ZodType A :=
  fun pth data =>
    match data with
    | None => inner pth (Some d)
    | Some _ => inner pth data
    end.

(** [ZodEnum._parse] *)
Definition ZodEnum (values : list jsstring) : ZodType jsstring :=
  fun pth data =>
    match data with
    | Some (JStr s) =>
        if existsb (str_eqb s) values then ([], OK s)
        else ([ {| code := u16 "invalid_enum_value";
                   path := pth;
                   message := u16 "Invalid enum value. Expected "
                              ++ joinValues values
                              ++ u16 ", received '" ++ s ++ u16 "'" |} ],
              INVALID)
    | _ => ([invalid_type (joinValues values) pth data], INVALID)
    end.

(** *** [z.object(shape)]

    [ZodObject._parse] parses the value of every key of the shape, in the
    order of the shape, and merges the results ([mergeObjectSync]): aborted
    if one of them is, dirty if one of them is, valid otherwise.  The shape
    is written in applicative style, [pure] being the constructor of the
    output and [<*>] adding one key. *)
Definition pure (A : Type) (a : A) : Parse A := ([], OK a).

Definition merge (A B : Type) (f : ParseReturn (A -> B)) (x : ParseReturn A)
    : ParseReturn B :=
  match f, x with
  | INVALID, _ | _, INVALID => INVALID
  | OK g, OK a => OK (g a)
  | OK g, DIRTY a | DIRTY g, OK a | DIRTY g, DIRTY a => DIRTY (g a)
  end.

Definition ap (A B : Type) (f : Parse (A -> B)) (x : Parse A) : Parse B :=
  (fst f ++ fst x, merge (snd f) (snd x)).

(** The value of key [k] of the input object [o], parsed by [schema]. *)
Definition key (A : Type) (pth : list jsstring) (o : list (jsstring * json))
    (k : string) (schema : ZodType A) : Parse A :=
  schema (pth ++ [u16 k]) (lookup (u16 k) o).

(** An object schema in the default ("strip") mode: unknown keys of the
    input are ignored. *)
Definition ZodObject (A : Type)
    (shape : list jsstring -> list (jsstring * json) -> Parse A)
    : ZodType A :=
  fun pth data =>
    match data with
    | Some (JObj o) => shape pth o
    | _ => ([invalid_type (u16 "object") pth data], INVALID)
    end.

(** A parse is coherent when its status is valid exactly when it added no
    issue. *)
Definition coherent (A : Type) (p : Parse A) : Prop :=
  match snd p with
  | OK _ => fst p = []
  | _ => fst p <> []
  end.

(** A schema reports in place when each of its issues carries the path it
    was given. *)
Definition in_place (A : Type) (schema : ZodType A) : Prop :=
  forall pth data i, In i (fst (schema pth data)) -> i.(path) = pth.

(** [schema.safeParse(data)], that is [handleResult]. *)
Inductive SafeParseReturn (A : Type) :=
| SafeParseSuccess (data : A)
| SafeParseError (errors : list ZodIssue)
| NoIssuesDetected.

Arguments SafeParseError {A} errors.
Arguments NoIssuesDetected {A}.

Definition safeParse (A : Type) (schema : ZodType A) (data : value)
    : SafeParseReturn A :=
  match schema [] data with
  | (_, OK a) => SafeParseSuccess a
  | ([], _) => NoIssuesDetected
  | (issues, _) => SafeParseError issues
  end.

End Zod.

Import Zod.

(** ** shared/schema.ts *)

(** [InsertAddress], the output type of [insertAddressSchema]. *)
Module InsertAddress.
Record t := {
  streetAddress : jsstring;
  city : jsstring;
  state : jsstring;
  zipCode : jsstring;
  country : jsstring;
  apartment : option jsstring;
  addressType : jsstring
}.
End InsertAddress.

(** [Address], a row of the [addresses] table; [null] is [None]. *)
Module Address.
Record t := {
  streetAddress : jsstring;
  city : jsstring;
  state : jsstring;
  zipCode : jsstring;
  country : jsstring;
  apartment : option jsstring;
  addressType : jsstring;
  id : Z;
  userId : option Z
}.
End Address.

Module InsertUser.
Record t := {
  username : jsstring;
  password : jsstring
}.
End InsertUser.

Module User.
Record t := {
  username : jsstring;
  password : jsstring;
  id : Z
}.
End User.

Module Schema.

Local Notation "f <*> x" := (Zod.ap f x) (at level 50, left associativity).

(** [\d{5}(-\d{4})?], the body of [/^\d{5}(-\d{4})?$/]. *)
Definition ZIP_PATTERN : regex :=
  Cat (times 5 (Class digit)) (opt (Cat (chr "-") (times 4 (Class digit)))).

(** The seven schemas of the [extend] call. *)
Definition streetAddress_schema : ZodType jsstring :=
  ZodString (min 1 "Street address is required" []).

Definition city_schema : ZodType jsstring :=
  ZodString (min 1 "City is required" []).

Definition state_schema : ZodType jsstring :=
  ZodString (min 1 "State is required" []).

Definition zipCode_checks : list ZodStringCheck :=
  regex_check ZIP_PATTERN "Please enter a valid ZIP code"
    (min 1 "ZIP code is required" []).

Definition zipCode_schema : ZodType jsstring := ZodString zipCode_checks.

Definition country_schema : ZodType jsstring :=
  ZodString (min 1 "Country is required" []).

Definition apartment_schema : ZodType (option jsstring) :=
  ZodOptional (ZodString []).

Definition addressType_schema : ZodType jsstring :=
  ZodDefault (ZodEnum [u16 "home"; u16 "work"; u16 "other"])
    (JStr (u16 "home")).

(** [createInsertSchema(addresses).omit({id, userId}).extend({...})]: the
    extension replaces the schema of each of the seven remaining columns,
    so the shape is the one written in the [extend] call, in column order. *)
Definition insertAddressSchema : ZodType InsertAddress.t :=
  ZodObject (fun pth o =>
    Zod.pure InsertAddress.Build_t
    <*> key pth o "streetAddress" streetAddress_schema
    <*> key pth o "city" city_schema
    <*> key pth o "state" state_schema
    <*> key pth o "zipCode" zipCode_schema
    <*> key pth o "country" country_schema
    <*> key pth o "apartment" apartment_schema
    <*> key pth o "addressType" addressType_schema).

(** The issues each key of a submitted object raises on its own, by key. *)
Definition field_issues (o : list (jsstring * json))
    : list (string * list ZodIssue) :=
  [ ("streetAddress", fst (key [] o "streetAddress" streetAddress_schema));
    ("city", fst (key [] o "city" city_schema));
    ("state", fst (key [] o "state" state_schema));
    ("zipCode", fst (key [] o "zipCode" zipCode_schema));
    ("country", fst (key [] o "country" country_schema));
    ("apartment", fst (key [] o "apartment" apartment_schema));
    ("addressType", fst (key [] o "addressType" addressType_schema)) ]%string.

(** The four text fields checked with [min(1, message)] alone, each with
    its message. *)
Definition required_text_fields : list (string * string) :=
  [ ("streetAddress", "Street address is required");
    ("city", "City is required");
    ("state", "State is required");
    ("country", "Country is required") ]%string.

(** The postal code format in the words of the data model: five digits,
    or five digits, a hyphen and four digits. *)
Definition is_digit (c : N) : Prop := (48 <= c <= 57)%N.

Definition zip_code_shape (s : jsstring) : Prop :=
  exists d,
    List.length d = 5%nat /\ Forall is_digit d /\
    (s = d \/
     exists e, List.length e = 4%nat /\ Forall is_digit e /\
               s = d ++ N_of_ascii "-" :: e).

(** [PlacesSuggestion] and [PlacesDetails]: the routes fill the properties
    with whatever the provider sent, so each holds a value or [undefined]. *)
Record PlacesSuggestion := {
  placeId : value;
  description : value;
  mainText : value;
  secondaryText : value
}.

Record PlacesDetails := {
  streetNumber : value;
  route : value;
  locality : value;
  administrativeAreaLevel1 : value;
  postalCode : value;
  country : value
}.

End Schema.

Import Schema.

(** ** server/storage.ts *)

Module Storage.

(** The fields of [MemStorage].  The two counters are JavaScript numbers
    holding integers; they are modelled as unbounded integers, [id++] being
    exact for every value below 2^53. *)
Record MemStorage := {
  users : Map User.t;
  addresses : Map Address.t;
  currentUserId : Z;
  currentAddressId : Z
}.

(** [new MemStorage()] *)
Definition constructor : MemStorage :=
  {| users := []; addresses := []; currentUserId := 1; currentAddressId := 1 |}.


Definition getUserByUsername (this : MemStorage) (username : jsstring)
    : option User.t :=
  find (fun user => str_eqb user.(User.username) username)
       (Map_values this.(users)).

Definition createUser (this : MemStorage) (insertUser : InsertUser.t)
    : User.t * MemStorage :=
  let id := this.(currentUserId) in
  let user := {| User.username := insertUser.(InsertUser.username);
                 User.password := insertUser.(InsertUser.password);
                 User.id := id |} in
  (user,
   {| users := Map_set this.(users) id user;
      addresses := this.(addresses);
      currentUserId := id + 1;
      currentAddressId := this.(currentAddressId) |}).

(** [{ ...insertAddress, id, userId: null }] *)
Definition spread (insertAddress : InsertAddress.t) (id : Z) : Address.t :=
  {| Address.streetAddress := insertAddress.(InsertAddress.streetAddress);
     Address.city := insertAddress.(InsertAddress.city);
     Address.state := insertAddress.(InsertAddress.state);
     Address.zipCode := insertAddress.(InsertAddress.zipCode);
     Address.country := insertAddress.(InsertAddress.country);
     Address.apartment := insertAddress.(InsertAddress.apartment);
     Address.addressType := insertAddress.(InsertAddress.addressType);
     Address.id := id;
     Address.userId := None |}.

Definition createAddress (this : MemStorage) (insertAddress : InsertAddress.t)
    : Address.t * MemStorage :=
  let id := this.(currentAddressId) in
  let address := spread insertAddress id in
  (address,
   {| users := this.(users);
      addresses := Map_set this.(addresses) id address;
      currentUserId := this.(currentUserId);
      currentAddressId := id + 1 |}).

Definition getAddresses (this : MemStorage) : list Address.t :=
  Map_values this.(addresses).

Definition getAddressById (this : MemStorage) (id : Z) : option Address.t :=
  Map_get this.(addresses) id.

(** The store after a run of [createAddress] calls, with the records the
    calls returned. *)
Fixpoint createAll (this : MemStorage) (inputs : list InsertAddress.t)
    : list Address.t * MemStorage :=
  match inputs with
  | [] => ([], this)
  | input :: rest =>
      let (address, this') := createAddress this input in
      let (created, this'') := createAll this' rest in
      (address :: created, this'')
  end.

(** The records of a run of [createAddress] calls that starts at counter
    value [from]: the inputs in order, numbered consecutively. *)
Fixpoint numbered (from : Z) (inputs : list InsertAddress.t)
    : list Address.t :=
  match inputs with
  | [] => []
  | input :: rest => spread input from :: numbered (from + 1) rest
  end.

(** Every key of the address map lies below the counter. *)
Definition counter_above_keys (this : MemStorage) : Prop :=
  Forall (fun e => (fst e < this.(currentAddressId))%Z) this.(addresses).

End Storage.

Import Storage.

(** ** server/routes.ts *)

Module Routes.

(** *** Exceptions

    What a [throw] carries.  The message of an [Error] is kept up to its
    interpolated part, which reaches the console only. *)

Inductive exn :=
| ZodError (errors : list ZodIssue)
| Error (message : jsstring)
| TypeError
| SyntaxError
| URIError.

Inductive outcome (A : Type) :=
| Return (a : A)
| Throw (e : exn).

Arguments Throw {A} e.

Definition obind (A B : Type) (x : outcome A) (k : A -> outcome B)
    : outcome B :=
  match x with
  | Return a => k a
  | Throw e => Throw e
  end.

Notation "x <~ e ;; k" := (obind e (fun x => k))
  (at level 61, e at next level, right associativity).

(** [schema.parse(data)]: the data on success, the [ZodError] thrown
    otherwise. *)
Definition parse (A : Type) (schema : ZodType A) (data : value) : outcome A :=
  match safeParse schema data with
  | SafeParseSuccess d => Return d
  | SafeParseError errors => Throw (ZodError errors)
  | NoIssuesDetected =>
      Throw (Error (u16 "Validation failed but no issues detected."))
  end.

(** *** Property access on provider data

    [v.k] for a key [k] that no built-in prototype defines: a [TypeError]
    on [null] and [undefined], the own property of an object, [undefined]
    on every other value. *)
Definition prop (v : value) (k : string) : outcome value :=
  match v with
  | None | Some JNull => Throw TypeError
  | Some (JObj o) => Return (lookup (u16 k) o)
  | Some _ => Return None
  end.

(** [v?.k] *)
Definition opt_prop (v : value) (k : string) : outcome value :=
  if nullish v then Return None else prop v k.

(** [v === "s"] *)
Definition is_string (v : value) (s : string) : bool :=
  match v with
  | Some (JStr x) => str_eqb x (u16 s)
  | _ => false
  end.

(** [types.includes("s")]: [Array.prototype.includes] on an array,
    [String.prototype.includes] on a string, not a function elsewhere. *)
Definition includes (types : value) (s : string) : outcome bool :=
  match types with
  | Some (JArr l) => Return (existsb (fun e => is_string (Some e) s) l)
  | Some (JStr x) => Return (str_includes x (u16 s))
  | _ => Throw TypeError
  end.

(** *** The outside world *)

Record ProcessEnv := {
  env_GOOGLE_PLACES_API_KEY : option jsstring;
  env_GOOGLE_API_KEY : option jsstring
}.

(** The two calls made to the provider, by endpoint and query parameters:
    [.../place/autocomplete/json?input=<input>&types=address&key=<key>] and
    [.../place/details/json?place_id=<placeId>&fields=address_components&key=<key>]. *)
Inductive Request :=
| Autocomplete (input key : jsstring)
| PlaceDetails (placeId key : jsstring).

(** [encodeURIComponent(input)] throws on a string that is not well-formed
    UTF-16, so does building the autocomplete URL. *)
Definition autocomplete_url (input key : jsstring) : outcome Request :=
  if well_formed input then Return (Autocomplete input key)
  else Throw URIError.

(** What [fetch] resolves to: [ok], [status], and the result of [json()],
    [None] when the body is not JSON. *)
Record FetchResponse := {
  ok : bool;
  status : Z;
  json_body : option json
}.

(** What a handler does to the outside, in order. *)
Inductive Event :=
| Fetch (request : Request)
| CreateAddress (insertAddress : InsertAddress.t)
| GetAddresses.

(** The module-level [storage] and the calls made so far. *)
Record World := {
  storage : MemStorage;
  trace : list Event
}.

(** A handler body: it runs in a world, returns or throws, and leaves a
    world. *)
Definition M (A : Type) : Type := World -> outcome A * World.

Definition ret (A : Type) (a : A) : M A := fun w => (Return a, w).

Definition throw (A : Type) (e : exn) : M A := fun w => (Throw e, w).

Arguments throw {A} e.

Definition bind (A B : Type) (m : M A) (k : A -> M B) : M B :=
  fun w =>
    match m w with
    | (Return a, w') => k a w'
    | (Throw e, w') => (Throw e, w')
    end.

Definition lift (A : Type) (x : outcome A) : M A := fun w => (x, w).

(** [try { body } catch (error) { handler }] *)
Definition try_catch (A : Type) (body : M A) (handler : exn -> M A) : M A :=
  fun w =>
    match body w with
    | (Return a, w') => (Return a, w')
    | (Throw e, w') => handler e w'
    end.

Notation "x <- e ;; k" := (bind e (fun x => k))
  (at level 61, e at next level, right associativity).

(** *** Responses *)

Inductive Body :=
| Predictions (predictions : list PlacesSuggestion)
| Details (details : PlacesDetails)
| Created (address : Address.t)
| Addresses (addresses : list Address.t)
| ValidationFailed (error : jsstring) (details : list ZodIssue)
| Failed (error message : jsstring).

Record Response := {
  statusCode : Z;
  body : Body
}.

(** [res.json(b)] and [res.status(n).json(b)] *)
Definition json (b : Body) : Response := {| statusCode := 200; body := b |}.

Definition status_json (n : Z) (b : Body) : Response :=
  {| statusCode := n; body := b |}.

(** A query-string parameter as Express parses it. *)
Inductive QueryValue :=
| QString (s : jsstring)
| QArray (l : list QueryValue)
| QObject (o : list (jsstring * QueryValue)).

(** *** Mapping provider data *)

(** The callback of [data.predictions?.map(...)]. *)
Definition toSuggestion (prediction : JS.json) : outcome PlacesSuggestion :=
  let prediction := Some prediction in
  place_id <~ prop prediction "place_id" ;;
  description <~ prop prediction "description" ;;
  structured_formatting <~ prop prediction "structured_formatting" ;;
  main_text <~ opt_prop structured_formatting "main_text" ;;
  secondary_text <~ opt_prop structured_formatting "secondary_text" ;;
  Return {| placeId := place_id;
            description := description;
            mainText := or_else main_text description;
            secondaryText := or_else secondary_text (Some (JStr [])) |}.

Fixpoint mapM (A B : Type) (f : A -> outcome B) (l : list A)
    : outcome (list B) :=
  match l with
  | [] => Return []
  | a :: l' => b <~ f a ;; bs <~ mapM f l' ;; Return (b :: bs)
  end.

(** [data.predictions?.map(...) || []]: nothing to map on a nullish value,
    [map] is not a function on anything but an array. *)
Definition suggestions_of (predictions : value)
    : outcome (list PlacesSuggestion) :=
  match predictions with
  | None | Some JNull => Return []
  | Some (JArr l) => mapM toSuggestion l
  | Some _ => Throw TypeError
  end.

Definition no_details : PlacesDetails :=
  {| streetNumber := None; route := None; locality := None;
     administrativeAreaLevel1 := None; postalCode := None; country := None |}.

(** The callback of [addressComponents.forEach(...)]. *)
Definition assign (details : PlacesDetails) (component : JS.json)
    : outcome PlacesDetails :=
  let component := Some component in
  types <~ prop component "types" ;;
  is_street_number <~ includes types "street_number" ;;
  if is_street_number then
    long_name <~ prop component "long_name" ;;
    Return {| streetNumber := long_name;
              route := details.(route);
              locality := details.(locality);
              administrativeAreaLevel1 := details.(administrativeAreaLevel1);
              postalCode := details.(postalCode);
              country := details.(country) |}
  else
  is_route <~ includes types "route" ;;
  if is_route then
    long_name <~ prop component "long_name" ;;
    Return {| streetNumber := details.(streetNumber);
              route := long_name;
              locality := details.(locality);
              administrativeAreaLevel1 := details.(administrativeAreaLevel1);
              postalCode := details.(postalCode);
              country := details.(country) |}
  else
  is_locality <~ includes types "locality" ;;
  if is_locality then
    long_name <~ prop component "long_name" ;;
    Return {| streetNumber := details.(streetNumber);
              route := details.(route);
              locality := long_name;
              administrativeAreaLevel1 := details.(administrativeAreaLevel1);
              postalCode := details.(postalCode);
              country := details.(country) |}
  else
  is_area <~ includes types "administrative_area_level_1" ;;
  if is_area then
    short_name <~ prop component "short_name" ;;
    Return {| streetNumber := details.(streetNumber);
              route := details.(route);
              locality := details.(locality);
              administrativeAreaLevel1 := short_name;
              postalCode := details.(postalCode);
              country := details.(country) |}
  else
  is_postal_code <~ includes types "postal_code" ;;
  if is_postal_code then
    long_name <~ prop component "long_name" ;;
    Return {| streetNumber := details.(streetNumber);
              route := details.(route);
              locality := details.(locality);
              administrativeAreaLevel1 := details.(administrativeAreaLevel1);
              postalCode := long_name;
              country := details.(country) |}
  else
  is_country <~ includes types "country" ;;
  if is_country then
    short_name <~ prop component "short_name" ;;
    Return {| streetNumber := details.(streetNumber);
              route := details.(route);
              locality := details.(locality);
              administrativeAreaLevel1 := details.(administrativeAreaLevel1);
              postalCode := details.(postalCode);
              country := short_name |}
  else Return details.

Fixpoint forEach (details : PlacesDetails) (components : list JS.json)
    : outcome PlacesDetails :=
  match components with
  | [] => Return details
  | component :: rest =>
      details' <~ assign details component ;; forEach details' rest
  end.

(** [(data.result?.address_components || []).forEach(...)]: [forEach] is
    not a function on anything but an array. *)
Definition details_of (data : value) : outcome PlacesDetails :=
  result <~ prop data "result" ;;
  address_components <~ opt_prop result "address_components" ;;
  match or_else address_components (Some (JArr [])) with
  | Some (JArr components) => forEach no_details components
  | _ => Throw TypeError
  end.

(** [data.status] when it can be read: the own property of an object,
    [undefined] otherwise. *)
Definition provider_status (data : JS.json) : value :=
  match data with
  | JObj o => lookup (u16 "status") o
  | _ => None
  end.

(** An [input] parameter that passes the guard of the suggestion handler:
    a single string of three code units or more. *)
Definition usable (input : option QueryValue) : Prop :=
  exists s, input = Some (QString s) /\ 3 <= List.length s.

(** *** [registerRoutes] *)

Section registerRoutes.

(** The environment of the process and the provider behind [fetch]:
    [None] when the promise rejects. *)
Variable env : ProcessEnv.
Variable provider : Request -> option FetchResponse.

(** [process.env.GOOGLE_PLACES_API_KEY || process.env.GOOGLE_API_KEY || ""] *)
Definition GOOGLE_API_KEY : jsstring :=
  match env.(env_GOOGLE_PLACES_API_KEY) with
  | Some (c :: s) => c :: s
  | _ =>
      match env.(env_GOOGLE_API_KEY) with
      | Some (c :: s) => c :: s
      | _ => []
      end
  end.

(** [await fetch(url)] *)
Definition fetch (request : Request) : M FetchResponse :=
  fun w =>
    (match provider request with
     | Some response => Return response
     | None => Throw TypeError
     end,
     {| storage := w.(storage); trace := w.(trace) ++ [Fetch request] |}).

(** [await response.json()] *)
Definition response_json (response : FetchResponse) : M JS.json :=
  lift match response.(json_body) with
       | Some data => Return data
       | None => Throw SyntaxError
       end.

(** [await storage.createAddress(validatedData)] *)
Definition storage_createAddress (validatedData : InsertAddress.t)
    : M Address.t :=
  fun w =>
    let (address, storage') := createAddress w.(storage) validatedData in
    (Return address,
     {| storage := storage';
        trace := w.(trace) ++ [CreateAddress validatedData] |}).

(** [await storage.getAddresses()] *)
Definition storage_getAddresses : M (list Address.t) :=
  fun w =>
    (Return (getAddresses w.(storage)),
     {| storage := w.(storage); trace := w.(trace) ++ [GetAddresses] |}).

Definition empty (s : jsstring) : bool :=
  match s with
  | [] => true
  | _ :: _ => false
  end.

(** [GET /api/places/suggestions], [input] being [req.query.input]. *)
Definition get_places_suggestions (input : option QueryValue) : M Response :=
  try_catch
    (match input with
     | Some (QString input) =>
         (* !input || input.length < 3 *)
         if empty input || Nat.ltb (List.length input) 3 then
           ret (json (Predictions []))
         else if empty GOOGLE_API_KEY then
           ret (status_json 503
                  (Failed (u16 "Google Places API key not configured")
                     (u16 "Address autocomplete is temporarily unavailable")))
         else
           url <- lift (autocomplete_url input GOOGLE_API_KEY) ;;
           response <- fetch url ;;
           if negb response.(ok) then
             throw (Error (u16 "Google Places API error"))
           else
             data <- response_json response ;;
             status <- lift (prop (Some data) "status") ;;
             if negb (is_string status "OK")
                && negb (is_string status "ZERO_RESULTS") then
               throw (Error (u16 "Google Places API error"))
             else
               suggestions <-
                 lift (predictions <~ prop (Some data) "predictions" ;;
                       suggestions_of predictions) ;;
               ret (json (Predictions suggestions))
     | _ =>
         (* !input || typeof input !== "string" *)
         ret (json (Predictions []))
     end)
    (fun error =>
       ret (status_json 500
              (Failed (u16 "Failed to fetch address suggestions")
                 (u16 "Address autocomplete service is temporarily unavailable")))).

(** [GET /api/places/details/:placeId], [placeId] being
    [req.params.placeId]. *)
Definition get_places_details (placeId : jsstring) : M Response :=
  try_catch
    (if empty GOOGLE_API_KEY then
       ret (status_json 503
              (Failed (u16 "Google Places API key not configured")
                 (u16 "Address details service is temporarily unavailable")))
     else
       response <- fetch (PlaceDetails placeId GOOGLE_API_KEY) ;;
       if negb response.(ok) then
         throw (Error (u16 "Google Places API error"))
       else
         data <- response_json response ;;
         status <- lift (prop (Some data) "status") ;;
         if negb (is_string status "OK") then
           throw (Error (u16 "Google Places API error"))
         else
           details <- lift (details_of (Some data)) ;;
           ret (json (Details details)))
    (fun error =>
       ret (status_json 500
              (Failed (u16 "Failed to fetch address details")
                 (u16 "Address details service is temporarily unavailable")))).

(** [POST /api/addresses], [body] being [req.body]. *)
Definition post_addresses (body : value) : M Response :=
  try_catch
    (validatedData <- lift (parse insertAddressSchema body) ;;
     address <- storage_createAddress validatedData ;;
     ret (status_json 201 (Created address)))
    (fun error =>
       match error with
       | ZodError errors =>
           ret (status_json 400
                  (ValidationFailed (u16 "Validation error") errors))
       | _ =>
           ret (status_json 500
                  (Failed (u16 "Failed to save address")
                     (u16 "Unable to save address. Please try again.")))
       end).

(** [GET /api/addresses] *)
Definition get_addresses : M Response :=
  try_catch
    (addresses <- storage_getAddresses ;;
     ret (json (Addresses addresses)))
    (fun error =>
       ret (status_json 500
              (Failed (u16 "Failed to fetch addresses")
                 (u16 "Unable to retrieve addresses. Please try again.")))).

End registerRoutes.

End Routes.

Import Routes.

(** ** Sample inputs *)

Module Examples.

(** The properties of an object whose values are all strings. *)
Definition props (fields : list (string * string))
    : list (jsstring * JS.json) :=
  List.map (fun p => (u16 (fst p), JStr (u16 (snd p)))) fields.

(** The two submissions of the specification's examples. *)
Definition main_street_props : list (jsstring * JS.json) :=
  props [("streetAddress", "1 Main St"); ("city", "Springfield");
         ("state", "IL"); ("zipCode", "62704"); ("country", "US");
         ("addressType", "work")]%string.

Definition main_street : value := Some (JObj main_street_props).

Definition bad_street_and_zip_props : list (jsstring * JS.json) :=
  props [("streetAddress", ""); ("city", "X"); ("state", "Y");
         ("zipCode", "bad"); ("country", "US")]%string.

Definition bad_street_and_zip : value := Some (JObj bad_street_and_zip_props).

(** A submission that leaves [country] out, one whose street is three
    spaces and one with an unknown address type; each is well formed
    otherwise. *)
Definition no_country_props : list (jsstring * JS.json) :=
  props [("streetAddress", "1 Main St"); ("city", "Springfield");
         ("state", "IL"); ("zipCode", "62704")]%string.

Definition no_country : value := Some (JObj no_country_props).

Definition blank_street_props : list (jsstring * JS.json) :=
  props [("streetAddress", "   "); ("city", "Springfield");
         ("state", "IL"); ("zipCode", "62704-1234");
         ("country", "US")]%string.

Definition blank_street : value := Some (JObj blank_street_props).

Definition office_props : list (jsstring * JS.json) :=
  props [("streetAddress", "1 Main St"); ("city", "Springfield");
         ("state", "IL"); ("zipCode", "62704"); ("country", "US");
         ("addressType", "office")]%string.

Definition main_street_validated : InsertAddress.t :=
  {| InsertAddress.streetAddress := u16 "1 Main St";
     InsertAddress.city := u16 "Springfield";
     InsertAddress.state := u16 "IL";
     InsertAddress.zipCode := u16 "62704";
     InsertAddress.country := u16 "US";
     InsertAddress.apartment := None;
     InsertAddress.addressType := u16 "work" |}.

Definition blank_street_validated : InsertAddress.t :=
  {| InsertAddress.streetAddress := u16 "   ";
     InsertAddress.city := u16 "Springfield";
     InsertAddress.state := u16 "IL";
     InsertAddress.zipCode := u16 "62704-1234";
     InsertAddress.country := u16 "US";
     InsertAddress.apartment := None;
     InsertAddress.addressType := u16 "home" |}.

(** The issues the second example raises. *)
Definition bad_street_and_zip_errors : list ZodIssue :=
  [ {| code := u16 "too_small"; path := [u16 "streetAddress"];
       message := u16 "Street address is required" |};
    {| code := u16 "invalid_string"; path := [u16 "zipCode"];
       message := u16 "Please enter a valid ZIP code" |} ].

Definition country_required : ZodIssue :=
  {| code := u16 "invalid_type"; path := [u16 "country"];
     message := u16 "Required" |}.

Definition unavailable (message : string) : Response :=
  status_json 503
    (Failed (u16 "Google Places API key not configured") (u16 message)).

Definition with_key : ProcessEnv :=
  {| env_GOOGLE_PLACES_API_KEY := Some (u16 "secret");
     env_GOOGLE_API_KEY := None |}.

Definition without_key : ProcessEnv :=
  {| env_GOOGLE_PLACES_API_KEY := None; env_GOOGLE_API_KEY := None |}.

(** A provider that answers every call with the given JSON body. *)
Definition answering (data : JS.json) : Request -> option FetchResponse :=
  fun _ => Some {| ok := true; status := 200; json_body := Some data |}.

Definition zero_results : JS.json :=
  JObj [(u16 "status", JStr (u16 "ZERO_RESULTS"))].

Definition one_component : JS.json :=
  JObj [(u16 "status", JStr (u16 "OK"));
        (u16 "result",
         JObj [(u16 "address_components",
                JArr [JObj [(u16 "long_name", JStr (u16 "Springfield"));
                            (u16 "short_name", JStr (u16 "Springfield"));
                            (u16 "types", JArr [JStr (u16 "locality")])]])])].

Definition two_predictions : JS.json :=
  JObj [(u16 "status", JStr (u16 "OK"));
        (u16 "predictions",
         JArr [JObj [(u16 "place_id", JStr (u16 "p1"));
                     (u16 "description", JStr (u16 "1 Main St, Springfield"));
                     (u16 "structured_formatting",
                      JObj [(u16 "main_text", JStr (u16 "1 Main St"));
                            (u16 "secondary_text",
                             JStr (u16 "Springfield"))])];
               JObj [(u16 "place_id", JStr (u16 "p2"));
                     (u16 "description", JStr (u16 "1 Main Ave"))]])].

Definition start : World := {| storage := constructor; trace := [] |}.

End Examples.

Import Examples.

(** ** Stores and records the service can hold *)

Module Invariants.

(** The stores [new MemStorage()] turns into through the two methods that
    write. *)
Inductive reachable : MemStorage -> Prop :=
| reachable_new : reachable constructor
| reachable_createUser this insertUser :
    reachable this -> reachable (snd (createUser this insertUser))
| reachable_createAddress this insertAddress :
    reachable this -> reachable (snd (createAddress this insertAddress)).

(** [from, from + 1, ...], [n] numbers. *)
Fixpoint count_from (from : Z) (n : nat) : list Z :=
  match n with
  | O => []
  | S n' => from :: count_from (from + 1) n'
  end.

(** The constraints of the insert schema, on a validated submission. *)
Definition valid_input (v : InsertAddress.t) : Prop :=
  v.(InsertAddress.streetAddress) <> [] /\
  v.(InsertAddress.city) <> [] /\
  v.(InsertAddress.state) <> [] /\
  zip_code_shape v.(InsertAddress.zipCode) /\
  v.(InsertAddress.country) <> [] /\
  In v.(InsertAddress.addressType) [u16 "home"; u16 "work"; u16 "other"].

(** The same constraints on a stored record, which has no user. *)
Definition valid_record (a : Address.t) : Prop :=
  a.(Address.streetAddress) <> [] /\
  a.(Address.city) <> [] /\
  a.(Address.state) <> [] /\
  zip_code_shape a.(Address.zipCode) /\
  a.(Address.country) <> [] /\
  In a.(Address.addressType) [u16 "home"; u16 "work"; u16 "other"] /\
  a.(Address.userId) = None.

(** The keys of the shape of [insertAddressSchema]. *)
Definition schema_keys : list string :=
  [ "streetAddress"; "city"; "state"; "zipCode"; "country"; "apartment";
    "addressType" ]%string.

(** The six type tags the detail handler looks for. *)
Definition detail_tags : list string :=
  [ "street_number"; "route"; "locality"; "administrative_area_level_1";
    "postal_code"; "country" ]%string.

(** Whether a trace [t'] extends [t] by nothing or by one fetch of
    [request]. *)
Definition at_most_fetch (request : Request) (t t' : list Event) : Prop :=
  t' = t \/ t' = t ++ [Fetch request].

End Invariants.

Import Invariants.

(** ** Provider answers *)

Module ProviderData.

(** A transport success whose JSON body [data] has status "OK". *)
Definition answers_OK (response : FetchResponse) (data : JS.json) : Prop :=
  response.(ok) = true /\
  response.(json_body) = Some data /\
  is_string (provider_status data) "OK" = true.

(** A transport success whose JSON body [data] has status "OK" or
    "ZERO_RESULTS". *)
Definition answers_OK_or_empty (response : FetchResponse) (data : JS.json)
    : Prop :=
  response.(ok) = true /\
  response.(json_body) = Some data /\
  (is_string (provider_status data) "OK" = true \/
   is_string (provider_status data) "ZERO_RESULTS" = true).

(** An answer without components: no object under [result], or one whose
    [address_components] is absent, falsy or the empty array. *)
Definition no_components (o : list (jsstring * JS.json)) : Prop :=
  match lookup (u16 "result") o with
  | Some (JObj result) =>
      truthy (lookup (u16 "address_components") result) = false \/
      lookup (u16 "address_components") result = Some (JArr [])
  | _ => True
  end.

(** A component whose [types] is an array holding none of the six tags. *)
Definition unmatched (component : JS.json) : Prop :=
  exists o l,
    component = JObj o /\
    lookup (u16 "types") o = Some (JArr l) /\
    forall tag, In tag detail_tags ->
                existsb (fun e => is_string (Some e) tag) l = false.

(** Two components with the same [types]. *)
Definition same_types (c1 c2 : JS.json) : Prop :=
  prop (Some c1) "types" = prop (Some c2) "types".

End ProviderData.

Import ProviderData.

(** ** client/src/components/AddressForm.tsx: the autocomplete widget *)

Module Widget.

(** An element of [place.address_components], as the Maps library types
    it. *)
Record AddressComponent := {
  long_name : jsstring;
  short_name : jsstring;
  types : list jsstring
}.

(** The three variables of the [place_changed] listener. *)
Record Selected := {
  street : jsstring;
  city : jsstring;
  state : jsstring
}.

(** [types.includes(tag)] *)
Definition has (component : AddressComponent) (tag : string) : bool :=
  existsb (fun t => str_eqb t (u16 tag)) component.(types).

(** The body of the [for ... of] loop: four independent [if]s. *)
Definition visit (acc : Selected) (component : AddressComponent) : Selected :=
  let acc :=
    if has component "street_number" then
      {| street := component.(long_name) ++ u16 " ";
         city := acc.(city); state := acc.(state) |}
    else acc in
  let acc :=
    if has component "route" then
      {| street := acc.(street) ++ component.(long_name);
         city := acc.(city); state := acc.(state) |}
    else acc in
  let acc :=
    if has component "locality" then
      {| street := acc.(street);
         city := component.(long_name); state := acc.(state) |}
    else acc in
  if has component "administrative_area_level_1" then
    {| street := acc.(street);
       city := acc.(city); state := component.(short_name) |}
  else acc.

(** The listener, up to the object it logs: iterating throws when the place
    has no [address_components]. *)
Definition place_changed (address_components : option (list AddressComponent))
    : outcome Selected :=
  match address_components with
  | None => Throw TypeError
  | Some components =>
      Return (fold_left visit components
                {| street := []; city := []; state := [] |})
  end.

End Widget.

(** ** The address form component: filling the form from resolved details *)

Module Form.

(** [PlacesDetails] as the interface declares it: each property a string or
    absent. *)
Record Details := {
  streetNumber : option jsstring;
  route : option jsstring;
  locality : option jsstring;
  administrativeAreaLevel1 : option jsstring;
  postalCode : option jsstring;
  country : option jsstring
}.

(** The state of the component: the values of the form ([FormData] is
    [InsertAddress]) and the five [useState] cells. *)
Record State := {
  values : InsertAddress.t;
  searchQuery : jsstring;
  showSuggestions : bool;
  selectedPlaceId : option jsstring;
  apiError : option jsstring;
  showSuccess : bool
}.

(** [Boolean(x)] on a string or [undefined]. *)
Definition present (x : option jsstring) : bool :=
  match x with
  | Some (_ :: _) => true
  | _ => false
  end.

(** [parts.filter(Boolean)] *)
Fixpoint filter_present (parts : list (option jsstring)) : list jsstring :=
  match parts with
  | [] => []
  | Some (c :: s) :: rest => (c :: s) :: filter_present rest
  | _ :: rest => filter_present rest
  end.

(** [parts.join(" ")] *)
Fixpoint join (parts : list jsstring) : jsstring :=
  match parts with
  | [] => []
  | [x] => x
  | x :: rest => x ++ u16 " " ++ join rest
  end.

(** [form.setValue(name, value)] for the five names the component sets. *)
Definition set_streetAddress (v : InsertAddress.t) (x : jsstring) :=
  {| InsertAddress.streetAddress := x;
     InsertAddress.city := v.(InsertAddress.city);
     InsertAddress.state := v.(InsertAddress.state);
     InsertAddress.zipCode := v.(InsertAddress.zipCode);
     InsertAddress.country := v.(InsertAddress.country);
     InsertAddress.apartment := v.(InsertAddress.apartment);
     InsertAddress.addressType := v.(InsertAddress.addressType) |}.

Definition set_city (v : InsertAddress.t) (x : jsstring) :=
  {| InsertAddress.streetAddress := v.(InsertAddress.streetAddress);
     InsertAddress.city := x;
     InsertAddress.state := v.(InsertAddress.state);
     InsertAddress.zipCode := v.(InsertAddress.zipCode);
     InsertAddress.country := v.(InsertAddress.country);
     InsertAddress.apartment := v.(InsertAddress.apartment);
     InsertAddress.addressType := v.(InsertAddress.addressType) |}.

Definition set_state (v : InsertAddress.t) (x : jsstring) :=
  {| InsertAddress.streetAddress := v.(InsertAddress.streetAddress);
     InsertAddress.city := v.(InsertAddress.city);
     InsertAddress.state := x;
     InsertAddress.zipCode := v.(InsertAddress.zipCode);
     InsertAddress.country := v.(InsertAddress.country);
     InsertAddress.apartment := v.(InsertAddress.apartment);
     InsertAddress.addressType := v.(InsertAddress.addressType) |}.

Definition set_zipCode (v : InsertAddress.t) (x : jsstring) :=
  {| InsertAddress.streetAddress := v.(InsertAddress.streetAddress);
     InsertAddress.city := v.(InsertAddress.city);
     InsertAddress.state := v.(InsertAddress.state);
     InsertAddress.zipCode := x;
     InsertAddress.country := v.(InsertAddress.country);
     InsertAddress.apartment := v.(InsertAddress.apartment);
     InsertAddress.addressType := v.(InsertAddress.addressType) |}.

Definition set_country (v : InsertAddress.t) (x : jsstring) :=
  {| InsertAddress.streetAddress := v.(InsertAddress.streetAddress);
     InsertAddress.city := v.(InsertAddress.city);
     InsertAddress.state := v.(InsertAddress.state);
     InsertAddress.zipCode := v.(InsertAddress.zipCode);
     InsertAddress.country := x;
     InsertAddress.apartment := v.(InsertAddress.apartment);
     InsertAddress.addressType := v.(InsertAddress.addressType) |}.

(** [if (x) form.setValue(name, x)] *)
Definition set_if_present (set : InsertAddress.t -> jsstring -> InsertAddress.t)
    (x : option jsstring) (v : InsertAddress.t) : InsertAddress.t :=
  match x with
  | Some (c :: s) => set v (c :: s)
  | _ => v
  end.

(** [onSuccess] of the place details mutation. *)
Definition onSuccess (details : Details) (st : State) : State :=
  let streetAddress :=
    join (filter_present [details.(streetNumber); details.(route)]) in
  let v :=
    set_streetAddress st.(values)
      match streetAddress with
      | [] => st.(searchQuery)
      | _ :: _ => streetAddress
      end in
  let v := set_if_present set_city details.(locality) v in
  let v := set_if_present set_state details.(administrativeAreaLevel1) v in
  let v := set_if_present set_zipCode details.(postalCode) v in
  let v := set_if_present set_country details.(country) v in
  {| values := v;
     searchQuery := [];
     showSuggestions := false;
     selectedPlaceId := st.(selectedPlaceId);
     apiError := None;
     showSuccess := st.(showSuccess) |}.

End Form.

(** ** More sample inputs *)

Module Samples.

(** The store after the first example was submitted. *)
Definition one_stored : MemStorage :=
  snd (createAddress constructor main_street_validated).

Definition one_stored_world : World :=
  {| storage := one_stored; trace := [CreateAddress main_street_validated] |}.

(** The first example with an [id] and a [userId] of the client's choice. *)
Definition main_street_with_ids_props : list (jsstring * JS.json) :=
  (u16 "id", JNum (99 # 1)) :: (u16 "userId", JNum (7 # 1))
  :: main_street_props.

(** The first example with a null apartment. *)
Definition null_apartment_props : list (jsstring * JS.json) :=
  (u16 "apartment", JNull) :: main_street_props.

Definition alice : InsertUser.t :=
  {| InsertUser.username := u16 "alice"; InsertUser.password := u16 "pw1" |}.

Definition alice_again : InsertUser.t :=
  {| InsertUser.username := u16 "alice"; InsertUser.password := u16 "pw2" |}.

Definition one_user : MemStorage := snd (createUser constructor alice).

(** Provider components. *)
Definition component (long short : string) (tags : list string) : JS.json :=
  JObj [(u16 "long_name", JStr (u16 long));
        (u16 "short_name", JStr (u16 short));
        (u16 "types", JArr (List.map (fun t => JStr (u16 t)) tags))].

Definition shelbyville : JS.json :=
  component "Shelbyville" "Shelbyville" ["locality"; "political"]%string.

Definition springfield : JS.json :=
  component "Springfield" "Springfield" ["locality"; "political"]%string.

Definition plus_code : JS.json :=
  component "QF5V+2P" "QF5V+2P" ["plus_code"]%string.

Definition is_plus_code (c : JS.json) : bool :=
  match c with
  | JObj o =>
      match lookup (u16 "long_name") o with
      | Some (JStr s) => str_eqb s (u16 "QF5V+2P")
      | _ => false
      end
  | _ => false
  end.

Definition no_result : list (jsstring * JS.json) :=
  [(u16 "status", JStr (u16 "OK"))].

Definition ok_response (data : JS.json) : FetchResponse :=
  {| ok := true; status := 200; json_body := Some data |}.

Definition two_predictions_props : list (jsstring * JS.json) :=
  match two_predictions with
  | JObj o => o
  | _ => []
  end.

(** Components of a selected place, as the widget sees them. *)
Definition widget_component (long short : string) (tags : list string)
    : Widget.AddressComponent :=
  {| Widget.long_name := u16 long;
     Widget.short_name := u16 short;
     Widget.types := List.map u16 tags |}.

Definition w_route := widget_component "Main St" "Main St" ["route"]%string.

Definition w_number := widget_component "1" "1" ["street_number"]%string.

Definition w_city :=
  widget_component "Springfield" "Springfield" ["locality"; "political"]%string.

End Samples.

Import Samples.

(** * Properties *)

(** ** Strings and maps *)

Lemma str_eqb_refl (a : jsstring) : str_eqb a a = true.
Proof.
  induction a as [|x a IH]; simpl; [reflexivity|].
  now rewrite N.eqb_refl, IH.
Qed.

Lemma str_eqb_eq (a b : jsstring) : str_eqb a b = true <-> a = b.
Proof.
  split; [|intros ->; apply str_eqb_refl].
  revert b; induction a as [|x a IH]; intros [|y b]; simpl; try discriminate;
    [reflexivity|].
  intros H; apply andb_prop in H as [Hx Ha].
  apply N.eqb_eq in Hx; apply IH in Ha; congruence.
Qed.

Lemma str_eqb_neq (a b : jsstring) : str_eqb a b = false <-> a <> b.
Proof.
  split.
  - intros H E; apply str_eqb_eq in E; congruence.
  - intros H; destruct (str_eqb a b) eqn:E; [|reflexivity].
    apply str_eqb_eq in E; contradiction.
Qed.

(** Reading a key back after [set]. *)
Lemma Map_get_set_same (V : Type) (m : Map V) (k : Z) (v : V) :
  Map_get (Map_set m k v) k = Some v.
Proof.
  induction m as [|[k' v'] m IH]; simpl.
  - now rewrite Z.eqb_refl.
  - destruct (Z.eqb k k') eqn:E; simpl.
    + now rewrite Z.eqb_refl.
    + now rewrite E.
Qed.

Lemma Map_get_set_other (V : Type) (m : Map V) (k k' : Z) (v : V) :
  k' <> k -> Map_get (Map_set m k v) k' = Map_get m k'.
Proof.
  intros Hne; induction m as [|[k0 v0] m IH]; simpl.
  - apply Z.eqb_neq in Hne; now rewrite Hne.
  - destruct (Z.eqb k k0) eqn:E; simpl.
    + apply Z.eqb_eq in E; subst k0.
      apply Z.eqb_neq in Hne; now rewrite Hne.
    + now rewrite IH.
Qed.

(** A key larger than every key of the map is new: [set] appends. *)
Lemma Map_set_fresh (V : Type) (m : Map V) (k : Z) (v : V) :
  Forall (fun e => fst e < k)%Z m -> Map_set m k v = m ++ [(k, v)].
Proof.
  induction 1 as [|[k' v'] m Hk _ IH]; simpl; [reflexivity|].
  simpl in Hk.
  replace (Z.eqb k k') with false by (symmetry; apply Z.eqb_neq; lia).
  now rewrite IH.
Qed.

(** ** The matcher against the words of a pattern *)

Lemma Matches_nil_Cat (r s : regex) :
  Matches (Cat r s) [] -> Matches r [] /\ Matches s [].
Proof.
  intros H; inversion H as [| |r' s' u v Hu Hv| |]; subst.
  match goal with E : _ ++ _ = [] |- _ => apply app_eq_nil in E as [-> ->] end.
  now split.
Qed.

Lemma nullable_Matches (r : regex) : nullable r = true <-> Matches r [].
Proof.
  induction r as [| |p|r IHr s IHs|r IHr s IHs]; simpl.
  - split; [discriminate|inversion 1].
  - split; [constructor|reflexivity].
  - split; [discriminate|inversion 1].
  - rewrite andb_true_iff, IHr, IHs; split.
    + intros [Hr Hs]; exact (MCat Hr Hs).
    + apply Matches_nil_Cat.
  - rewrite orb_true_iff, IHr, IHs; split.
    + intros [H|H]; [now apply MAltL|now apply MAltR].
    + inversion 1; subst; auto.
Qed.

Lemma Matches_cons_Cat (r s : regex) (c : N) (w : jsstring) :
  Matches (Cat r s) (c :: w) ->
  (Matches r [] /\ Matches s (c :: w)) \/
  (exists u v, w = u ++ v /\ Matches r (c :: u) /\ Matches s v).
Proof.
  intros H; inversion H as [| |r' s' u v Hu Hv| |]; subst.
  match goal with E : u ++ v = _ |- _ => rename E into Huv end.
  destruct u as [|x u]; simpl in Huv.
  - subst v; left; now split.
  - injection Huv as Hx Hw; subst x w; right; now exists u, v.
Qed.

Lemma deriv_Matches (r : regex) :
  forall c w, Matches (deriv c r) w <-> Matches r (c :: w).
Proof.
  induction r as [| |p|r IHr s IHs|r IHr s IHs]; intros c w; simpl.
  - split; inversion 1.
  - split; inversion 1.
  - destruct (p c) eqn:Hp; split; intros H; inversion H; subst.
    + now constructor.
    + constructor.
    + congruence.
  - assert (Hcat : Matches (Cat (deriv c r) s) w <->
                   exists u v, w = u ++ v /\ Matches r (c :: u) /\ Matches s v).
    { split.
      - inversion 1 as [| |r' s' u v Hu Hv| |]; subst.
        exists u, v; rewrite <- IHr; auto.
      - intros (u & v & -> & Hu & Hv); apply MCat; [now apply IHr|assumption]. }
    destruct (nullable r) eqn:Hn.
    + split.
      * inversion 1 as [| | |r' s' u Hu|r' s' u Hu]; subst.
        -- apply Hcat in Hu as (u & v & -> & Hu & Hv).
           exact (MCat Hu Hv).
        -- apply IHs in Hu; apply nullable_Matches in Hn.
           exact (MCat Hn Hu).
      * intros H; apply Matches_cons_Cat in H as [[_ H]|H].
        -- apply MAltR; now apply IHs.
        -- apply MAltL; now apply Hcat.
    + rewrite Hcat; split.
      * intros (u & v & -> & Hu & Hv); exact (MCat Hu Hv).
      * intros H; apply Matches_cons_Cat in H as [[H _]|H]; [|assumption].
        apply nullable_Matches in H; congruence.
  - split.
    + inversion 1; subst; [apply MAltL|apply MAltR]; firstorder.
    + inversion 1; subst; [apply MAltL|apply MAltR]; firstorder.
Qed.

(** The derivative matcher decides membership. *)
Lemma matches_Matches (w : jsstring) :
  forall r, matches r w = true <-> Matches r w.
Proof.
  induction w as [|c w IH]; intros r; simpl.
  - apply nullable_Matches.
  - rewrite IH; apply deriv_Matches.
Qed.

(** [p{n}]: exactly [n] code units of the class. *)
Lemma Matches_times_Class (p : N -> bool) (n : nat) :
  forall w, Matches (times n (Class p)) w <->
            List.length w = n /\ Forall (fun c => p c = true) w.
Proof.
  induction n as [|n IH]; intros w; simpl.
  - split.
    + inversion 1; auto.
    + intros [H _]; destruct w; [constructor|discriminate].
  - split.
    + inversion 1 as [| |r' s' u v Hu Hv| |]; subst.
      inversion Hu; subst; simpl.
      apply IH in Hv as [Hl Hf]; split; [congruence|now constructor].
    + intros [Hl Hf]; destruct w as [|c w]; [discriminate|].
      inversion Hf; subst.
      change (c :: w) with ([c] ++ w); apply MCat; [now constructor|].
      apply IH; split; [now injection Hl|assumption].
Qed.

(** The pattern of the schema accepts exactly the postal codes of the data
    model. *)
Lemma digit_is_digit (c : N) : digit c = true <-> is_digit c.
Proof.
  unfold digit, is_digit.
  rewrite andb_true_iff, !N.leb_le; tauto.
Qed.

Lemma Forall_digit (w : jsstring) :
  Forall (fun c => digit c = true) w <-> Forall is_digit w.
Proof.
  split; apply Forall_impl; intros c; apply digit_is_digit.
Qed.

Lemma ZIP_PATTERN_shape (s : jsstring) :
  RegExp.test ZIP_PATTERN s = true <-> zip_code_shape s.
Proof.
  unfold RegExp.test, ZIP_PATTERN, opt, chr, zip_code_shape.
  rewrite matches_Matches; split.
  - inversion 1 as [| |r' s' d v Hd Hv| |]; subst.
    change (Matches (times 5 (Class digit)) d) in Hd.
    apply Matches_times_Class in Hd as [Hl Hd]; apply Forall_digit in Hd.
    exists d; repeat split; try assumption.
    inversion Hv as [| | |r' s' u Hu|r' s' u Hu]; subst.
    + right.
      inversion Hu as [| |r'' s'' h e Hh He| |]; subst.
      change (Matches (times 4 (Class digit)) e) in He.
      apply Matches_times_Class in He as [Hle He]; apply Forall_digit in He.
      inversion Hh as [|p c Hc| | |]; subst.
      apply N.eqb_eq in Hc; subst c.
      exists e; repeat split; assumption.
    + left; inversion Hu; now rewrite app_nil_r.
  - intros (d & Hl & Hd & [->|(e & Hle & He & ->)]).
    + rewrite <- (app_nil_r d); apply MCat.
      * apply Matches_times_Class; split; [assumption|now apply Forall_digit].
      * apply MAltR; constructor.
    + apply MCat.
      * apply Matches_times_Class; split; [assumption|now apply Forall_digit].
      * apply MAltL.
        change (N_of_ascii "-" :: e) with ([N_of_ascii "-"] ++ e); apply MCat.
        -- constructor; apply N.eqb_refl.
        -- apply Matches_times_Class; split;
             [assumption|now apply Forall_digit].
Qed.

(** ** The zod combinators *)

Lemma coherent_ZodString checks pth data : coherent (ZodString checks pth data).
Proof.
  unfold coherent, ZodString.
  destruct data as [[| | |s| |]|]; simpl; try discriminate.
  destruct (flat_map (run_check pth s) checks); simpl;
    [reflexivity|discriminate].
Qed.

Lemma coherent_ZodOptional (A : Type) (inner : ZodType A) pth data :
  coherent (inner pth data) -> coherent (ZodOptional inner pth data).
Proof.
  unfold coherent, ZodOptional.
  destruct data as [d|]; [|reflexivity].
  destruct (inner pth (Some d)) as [issues [a|a|]]; simpl; auto.
Qed.

Lemma coherent_ZodEnum values pth data : coherent (ZodEnum values pth data).
Proof.
  unfold coherent, ZodEnum.
  destruct data as [[| | |s| |]|]; simpl; try discriminate.
  destruct (existsb (str_eqb s) values); simpl; [reflexivity|discriminate].
Qed.

Lemma coherent_ZodDefault (A : Type) (inner : ZodType A) d pth data :
  (forall data', coherent (inner pth data')) ->
  coherent (ZodDefault inner d pth data).
Proof.
  intros H; unfold ZodDefault; destruct data; apply H.
Qed.

Lemma coherent_ap (A B : Type) (f : Parse (A -> B)) (x : Parse A) :
  coherent f -> coherent x -> coherent (ap f x).
Proof.
  unfold coherent, ap; destruct f as [fi [g|g|]], x as [xi [a|a|]]; simpl;
    intros Hf Hx; subst; try reflexivity;
    intros E; apply app_eq_nil in E as [E1 E2]; auto.
Qed.

Lemma coherent_key (A : Type) (schema : ZodType A) pth o k :
  (forall p d, coherent (schema p d)) -> coherent (key pth o k schema).
Proof. intros H; apply H. Qed.

Lemma coherent_insertAddressSchema pth data :
  coherent (insertAddressSchema pth data).
Proof.
  unfold insertAddressSchema, ZodObject.
  destruct data as [[| | | | |o]|]; try (unfold coherent; simpl; discriminate).
  repeat apply coherent_ap; try reflexivity; apply coherent_key; intros p d.
  - apply coherent_ZodString.
  - apply coherent_ZodString.
  - apply coherent_ZodString.
  - apply coherent_ZodString.
  - apply coherent_ZodString.
  - apply coherent_ZodOptional, coherent_ZodString.
  - apply coherent_ZodDefault; intros; apply coherent_ZodEnum.
Qed.

Lemma in_place_ZodString checks : in_place (ZodString checks).
Proof.
  intros pth data i; unfold ZodString.
  destruct data as [[| | |s| |]|]; simpl;
    try (intros [<-|[]]; reflexivity).
  rewrite in_flat_map; intros (c & _ & Hi).
  destruct c as [n msg|re msg]; simpl in Hi.
  - destruct (Nat.ltb _ _); [destruct Hi as [<-|[]]; reflexivity|destruct Hi].
  - destruct (RegExp.test _ _); [destruct Hi|destruct Hi as [<-|[]]; reflexivity].
Qed.

Lemma in_place_ZodOptional (A : Type) (inner : ZodType A) :
  in_place inner -> in_place (ZodOptional inner).
Proof.
  intros H pth data i; unfold ZodOptional.
  destruct data as [d|]; [|intros []].
  specialize (H pth (Some d) i).
  destruct (inner pth (Some d)); exact H.
Qed.

Lemma in_place_ZodEnum values : in_place (ZodEnum values).
Proof.
  intros pth data i; unfold ZodEnum.
  destruct data as [[| | |s| |]|]; simpl;
    try (intros [<-|[]]; reflexivity).
  destruct (existsb _ _); simpl; [intros []|intros [<-|[]]; reflexivity].
Qed.

Lemma in_place_ZodDefault (A : Type) (inner : ZodType A) d :
  in_place inner -> in_place (ZodDefault inner d).
Proof.
  intros H pth data i; unfold ZodDefault; destruct data; apply H.
Qed.

(** [parse] returns when the schema added no issue and throws the issues
    otherwise. *)
Lemma parse_coherent (A : Type) (schema : ZodType A) (data : value) :
  coherent (schema [] data) ->
  match parse schema data with
  | Return a => schema [] data = ([], OK a)
  | Throw e =>
      e = ZodError (fst (schema [] data)) /\ fst (schema [] data) <> []
  end.
Proof.
  unfold coherent, parse, safeParse.
  destruct (schema [] data) as [issues [a|a|]]; simpl.
  - now intros ->.
  - destruct issues; [congruence|split; [reflexivity|discriminate]].
  - destruct issues; [congruence|split; [reflexivity|discriminate]].
Qed.

(** ** The store *)

Lemma createAddress_counter_above_keys this input :
  counter_above_keys this ->
  counter_above_keys (snd (createAddress this input)).
Proof.
  unfold counter_above_keys, createAddress; simpl; intros H.
  rewrite (Map_set_fresh _ H).
  apply Forall_app; split.
  - eapply Forall_impl; [|exact H]; simpl; intros; lia.
  - constructor; [simpl; lia|constructor].
Qed.

(** A run of creations appends its records, numbered from the counter. *)
Lemma createAll_numbered inputs :
  forall this,
    counter_above_keys this ->
    fst (createAll this inputs) = numbered this.(currentAddressId) inputs /\
    (snd (createAll this inputs)).(addresses) =
      this.(addresses)
      ++ List.map (fun a => (a.(Address.id), a))
           (numbered this.(currentAddressId) inputs).
Proof.
  induction inputs as [|input rest IH]; intros this Hinv; simpl.
  - now rewrite app_nil_r.
  - pose proof (createAddress_counter_above_keys input Hinv) as Hinv'.
    destruct (IH _ Hinv') as [IH1 IH2].
    unfold createAddress in *; simpl in *.
    destruct (createAll _ rest) as [created this'']; simpl in *.
    split; [now rewrite IH1|].
    rewrite IH2, (Map_set_fresh _ Hinv), <- app_assoc; reflexivity.
Qed.

Lemma numbered_length from inputs :
  List.length (numbered from inputs) = List.length inputs.
Proof.
  revert from; induction inputs as [|input rest IH]; intros from; simpl;
    [reflexivity|now rewrite IH].
Qed.

Lemma numbered_ids_bounded inputs :
  forall from,
    Forall (fun id => from <= id)%Z
           (List.map Address.id (numbered from inputs)).
Proof.
  induction inputs as [|input rest IH]; intros from; simpl; constructor.
  - simpl; lia.
  - eapply Forall_impl; [|apply IH]; simpl; intros; lia.
Qed.

Lemma numbered_ids_increasing inputs :
  forall from,
    StronglySorted Z.lt (List.map Address.id (numbered from inputs)).
Proof.
  induction inputs as [|input rest IH]; intros from; simpl; constructor.
  - apply IH.
  - eapply Forall_impl; [|apply numbered_ids_bounded]; simpl; intros; lia.
Qed.

Lemma increasing_NoDup (l : list Z) : StronglySorted Z.lt l -> NoDup l.
Proof.
  induction 1 as [|x l _ IH Hx]; constructor; [|assumption].
  intros Hin; rewrite Forall_forall in Hx; specialize (Hx _ Hin); lia.
Qed.

(** C1. Whatever the state of the store, [createAddress] on a validated
    submission followed by [getAddressById] with the assigned id returns the
    record made of the validated fields, the assigned id (the value of the
    counter at the call) and a null [userId]. *)
Theorem createAddress_then_getAddressById
    (body : value) (validatedData : InsertAddress.t) (this : MemStorage) :
  parse insertAddressSchema body = Return validatedData ->
  let address := fst (createAddress this validatedData) in
  let this' := snd (createAddress this validatedData) in
  getAddressById this' address.(Address.id) = Some address /\
  address =
    {| Address.streetAddress := validatedData.(InsertAddress.streetAddress);
       Address.city := validatedData.(InsertAddress.city);
       Address.state := validatedData.(InsertAddress.state);
       Address.zipCode := validatedData.(InsertAddress.zipCode);
       Address.country := validatedData.(InsertAddress.country);
       Address.apartment := validatedData.(InsertAddress.apartment);
       Address.addressType := validatedData.(InsertAddress.addressType);
       Address.id := this.(currentAddressId);
       Address.userId := None |}.
Proof.
  intros _; simpl; split; [|reflexivity].
  unfold getAddressById; simpl; apply Map_get_set_same.
Qed.

(** C9. After the creations of any list of inputs on a fresh store,
    [getAddresses] returns one record per input, in creation order (the k-th
    record holds the k-th input, numbered from 1), and the ids are strictly
    increasing in that order, hence pairwise distinct. *)
Theorem getAddresses_after_creations (inputs : list InsertAddress.t) :
  let this := snd (createAll constructor inputs) in
  getAddresses this = fst (createAll constructor inputs) /\
  getAddresses this = numbered 1 inputs /\
  List.length (getAddresses this) = List.length inputs /\
  StronglySorted Z.lt (List.map Address.id (getAddresses this)) /\
  NoDup (List.map Address.id (getAddresses this)).
Proof.
  assert (Hinv : counter_above_keys constructor) by constructor.
  destruct (createAll_numbered inputs Hinv) as [H1 H2]; simpl in *.
  assert (E : getAddresses (snd (createAll constructor inputs))
              = numbered 1 inputs).
  { unfold getAddresses, Map_values; rewrite H2, map_map; simpl.
    apply map_id. }
  simpl; rewrite E; repeat split.
  - now rewrite H1.
  - apply numbered_length.
  - apply numbered_ids_increasing.
  - apply increasing_NoDup, numbered_ids_increasing.
Qed.

(** ** The address schema *)

(** The issues of an object are those of its keys, in the order of the shape:
    no key is skipped because an earlier one failed. *)
Lemma insertAddressSchema_issues o :
  fst (insertAddressSchema [] (Some (JObj o)))
  = List.concat (List.map snd (field_issues o)).
Proof.
  unfold insertAddressSchema, ZodObject, field_issues, ap; simpl.
  rewrite app_nil_r, <- !app_assoc; reflexivity.
Qed.

Lemma In_insertAddressSchema_issues o i :
  In i (fst (insertAddressSchema [] (Some (JObj o)))) <->
  exists f issues, In (f, issues) (field_issues o) /\ In i issues.
Proof.
  rewrite insertAddressSchema_issues, in_concat; split.
  - intros (issues & Hin & Hi); apply in_map_iff in Hin as ([f x] & <- & Hf).
    now exists f, x.
  - intros (f & issues & Hf & Hi); exists issues; split; [|assumption].
    apply in_map_iff; now exists (f, issues).
Qed.

(** Each issue of a key carries the path of that key. *)
Lemma field_issues_path o f issues i :
  In (f, issues) (field_issues o) -> In i issues -> i.(path) = [u16 f].
Proof.
  unfold field_issues, key; simpl.
  intros [E|[E|[E|[E|[E|[E|[E|[]]]]]]]]; injection E as <- <-.
  1-5: apply in_place_ZodString.
  - apply in_place_ZodOptional, in_place_ZodString.
  - apply in_place_ZodDefault, in_place_ZodEnum.
Qed.

(** The issues found under the path of a key are the issues of that key. *)
Lemma issues_at_key o f issues i :
  In (f, issues) (field_issues o) ->
  In i (fst (insertAddressSchema [] (Some (JObj o)))) /\ i.(path) = [u16 f] <->
  In i issues.
Proof.
  intros Hf; split.
  - intros [Hi Hp].
    apply In_insertAddressSchema_issues in Hi as (f' & issues' & Hf' & Hi').
    assert (Hp' : i.(path) = [u16 f'])
      by (eapply field_issues_path; eassumption).
    rewrite Hp in Hp'.
    revert Hf Hf' Hp'; unfold field_issues.
    intros [E|[E|[E|[E|[E|[E|[E|[]]]]]]]]; injection E as <- <-;
      intros [E|[E|[E|[E|[E|[E|[E|[]]]]]]]]; injection E as <- <-;
      intros Hp'; (exact Hi' || (vm_compute in Hp'; discriminate Hp')).
  - intros Hi; split.
    + apply In_insertAddressSchema_issues; now exists f, issues.
    + eapply field_issues_path; eassumption.
Qed.

Lemma merge_OK (A B : Type) (f : ParseReturn (A -> B)) (x : ParseReturn A) b :
  merge f x = OK b -> exists g a, f = OK g /\ x = OK a /\ b = g a.
Proof.
  destruct f as [g|g|], x as [a|a|]; simpl; try discriminate.
  intros E; injection E as <-; now exists g, a.
Qed.

(** A valid object holds the valid value of each of its keys. *)
Lemma insertAddressSchema_OK o v :
  snd (insertAddressSchema [] (Some (JObj o))) = OK v ->
  snd (key [] o "streetAddress" streetAddress_schema)
    = OK v.(InsertAddress.streetAddress) /\
  snd (key [] o "city" city_schema) = OK v.(InsertAddress.city) /\
  snd (key [] o "state" state_schema) = OK v.(InsertAddress.state) /\
  snd (key [] o "zipCode" zipCode_schema) = OK v.(InsertAddress.zipCode) /\
  snd (key [] o "country" country_schema) = OK v.(InsertAddress.country) /\
  snd (key [] o "apartment" apartment_schema)
    = OK v.(InsertAddress.apartment) /\
  snd (key [] o "addressType" addressType_schema)
    = OK v.(InsertAddress.addressType).
Proof.
  unfold insertAddressSchema, ZodObject, ap, Zod.pure.
  cbn [fst snd]; intros H.
  apply merge_OK in H as (g7 & a7 & H & -> & ->).
  apply merge_OK in H as (g6 & a6 & H & -> & ->).
  apply merge_OK in H as (g5 & a5 & H & -> & ->).
  apply merge_OK in H as (g4 & a4 & H & -> & ->).
  apply merge_OK in H as (g3 & a3 & H & -> & ->).
  apply merge_OK in H as (g2 & a2 & H & -> & ->).
  apply merge_OK in H as (g1 & a1 & H & -> & ->).
  injection H as <-; simpl; repeat split.
Qed.

(** What [parse] does on an object: it returns when no key raised an issue
    and throws the issues of the keys otherwise. *)
Lemma parse_object o :
  (exists v, parse insertAddressSchema (Some (JObj o)) = Return v /\
             fst (insertAddressSchema [] (Some (JObj o))) = []) \/
  (parse insertAddressSchema (Some (JObj o))
     = Throw (ZodError (fst (insertAddressSchema [] (Some (JObj o))))) /\
   fst (insertAddressSchema [] (Some (JObj o))) <> []).
Proof.
  pose proof (parse_coherent insertAddressSchema (Some (JObj o))
                (coherent_insertAddressSchema [] (Some (JObj o))))
    as H.
  destruct (parse insertAddressSchema (Some (JObj o))) as [v|e].
  - left; exists v; split; [reflexivity|now rewrite H].
  - right; destruct H as [-> H]; now split.
Qed.

Lemma parse_Return_OK o v :
  parse insertAddressSchema (Some (JObj o)) = Return v ->
  snd (insertAddressSchema [] (Some (JObj o))) = OK v.
Proof.
  unfold parse, safeParse.
  destruct (insertAddressSchema [] (Some (JObj o))) as [issues [a|a|]];
    simpl; destruct issues; try discriminate; congruence.
Qed.

Lemma required_text_field_issues o f msg :
  In (f, msg) required_text_fields ->
  In (f, fst (key [] o f (ZodString (min 1 msg [])))) (field_issues o).
Proof.
  unfold required_text_fields, field_issues.
  intros [E|[E|[E|[E|[]]]]]; injection E as <- <-; simpl; tauto.
Qed.

Lemma key_min_1 o f msg s :
  lookup (u16 f) o = Some (JStr s) ->
  key [] o f (ZodString (min 1 msg []))
  = match s with
    | [] => ([ {| code := u16 "too_small"; path := [u16 f];
                  message := u16 msg |} ], DIRTY [])
    | _ :: _ => ([], OK s)
    end.
Proof.
  unfold key; intros ->; destruct s; reflexivity.
Qed.

Lemma key_zipCode o s :
  lookup (u16 "zipCode") o = Some (JStr s) ->
  fst (key [] o "zipCode" zipCode_schema)
  = (match s with
     | [] => [ {| code := u16 "too_small"; path := [u16 "zipCode"];
                  message := u16 "ZIP code is required" |} ]
     | _ :: _ => []
     end)
    ++ (if RegExp.test ZIP_PATTERN s then []
        else [ {| code := u16 "invalid_string"; path := [u16 "zipCode"];
                  message := u16 "Please enter a valid ZIP code" |} ]).
Proof.
  unfold key; intros ->.
  unfold zipCode_schema, zipCode_checks, ZodString, regex_check, min.
  cbn [fst app flat_map].
  rewrite app_nil_r; destruct s; reflexivity.
Qed.

(** C3. A [zipCode] string that does not match [^\d{5}(-\d{4})?$] (the empty
    string is one) makes validation throw, with a violation at [zipCode];
    a string that matches raises no violation at [zipCode], and its key
    parses to the valid value.  A string matches exactly when it is five
    digits, or five digits, a hyphen and four digits. *)
Theorem zipCode_rule (o : list (jsstring * JS.json)) (s : jsstring) :
  lookup (u16 "zipCode") o = Some (JStr s) ->
  (Matches ZIP_PATTERN s <-> zip_code_shape s) /\
  (~ Matches ZIP_PATTERN s ->
   exists errors,
     parse insertAddressSchema (Some (JObj o)) = Throw (ZodError errors) /\
     In {| code := u16 "invalid_string"; path := [u16 "zipCode"];
           message := u16 "Please enter a valid ZIP code" |} errors) /\
  (Matches ZIP_PATTERN s ->
   key [] o "zipCode" zipCode_schema = ([], OK s) /\
   forall errors i,
     parse insertAddressSchema (Some (JObj o)) = Throw (ZodError errors) ->
     In i errors -> i.(path) <> [u16 "zipCode"]).
Proof.
  intros Hz.
  assert (Hin : In ("zipCode"%string, fst (key [] o "zipCode" zipCode_schema))
                   (field_issues o))
    by (unfold field_issues; simpl; tauto).
  pose proof (key_zipCode o Hz) as Hk.
  split; [|split].
  - rewrite <- ZIP_PATTERN_shape; unfold RegExp.test.
    symmetry; apply matches_Matches.
  - intros Hno.
    assert (Ht : RegExp.test ZIP_PATTERN s = false).
    { destruct (RegExp.test ZIP_PATTERN s) eqn:E; [|reflexivity].
      apply matches_Matches in E; contradiction. }
    rewrite Ht in Hk.
    assert (Hi : In {| code := u16 "invalid_string"; path := [u16 "zipCode"];
                       message := u16 "Please enter a valid ZIP code" |}
                    (fst (insertAddressSchema [] (Some (JObj o))))).
    { apply (issues_at_key _ Hin); rewrite Hk.
      apply in_or_app; right; now left. }
    destruct (parse_object o) as [(v & _ & Hnil)|[Hp _]].
    + rewrite Hnil in Hi; destruct Hi.
    + eexists; split; [exact Hp|exact Hi].
  - intros Hyes.
    assert (Ht : RegExp.test ZIP_PATTERN s = true)
      by (now apply matches_Matches).
    rewrite Ht in Hk.
    assert (Hs : exists c s', s = c :: s').
    { destruct s as [|c s']; [discriminate Ht|now exists c, s']. }
    destruct Hs as (c & s' & ->); simpl in Hk.
    split.
    + unfold key in *; rewrite Hz in *.
      unfold zipCode_schema, zipCode_checks, ZodString in *; cbn [fst] in Hk.
      now rewrite Hk.
    + intros errors i Hp Hi Hpath.
      destruct (parse_object o) as [(v & Hv & _)|[Hp' _]]; [congruence|].
      rewrite Hp in Hp'; injection Hp' as ->.
      assert (Hi' : In i (fst (key [] o "zipCode" zipCode_schema)))
        by (apply (issues_at_key _ Hin); now split).
      rewrite Hk in Hi'; destruct Hi'.
Qed.

(** C4, as the code has it. A submission that leaves [country] out is
    rejected: validation throws, with the violation "Required" at
    [country]. *)
Theorem country_is_required (o : list (jsstring * JS.json)) :
  lookup (u16 "country") o = None ->
  exists errors,
    parse insertAddressSchema (Some (JObj o)) = Throw (ZodError errors) /\
    In {| code := u16 "invalid_type"; path := [u16 "country"];
          message := u16 "Required" |} errors.
Proof.
  intros Hc.
  assert (Hin : In ("country"%string, fst (key [] o "country" country_schema))
                   (field_issues o))
    by (unfold field_issues; simpl; tauto).
  assert (Hi : In {| code := u16 "invalid_type"; path := [u16 "country"];
                     message := u16 "Required" |}
                  (fst (insertAddressSchema [] (Some (JObj o))))).
  { apply (issues_at_key _ Hin); unfold key; rewrite Hc; now left. }
  destruct (parse_object o) as [(v & _ & Hnil)|[Hp _]].
  - rewrite Hnil in Hi; destruct Hi.
  - eexists; split; [exact Hp|exact Hi].
Qed.

(** C5, as the code has it. For each of [streetAddress], [city], [state]
    and [country], a supplied empty string makes validation throw, with the
    field's "is required" violation; a supplied string of one code unit or
    more, of whatever content, raises no violation at that field. *)
Theorem required_text_rejects_empty_only
    (f msg : string) (o : list (jsstring * JS.json)) (s : jsstring) :
  In (f, msg) required_text_fields ->
  lookup (u16 f) o = Some (JStr s) ->
  (s = [] ->
   exists errors,
     parse insertAddressSchema (Some (JObj o)) = Throw (ZodError errors) /\
     In {| code := u16 "too_small"; path := [u16 f]; message := u16 msg |}
        errors) /\
  (s <> [] ->
   forall errors i,
     parse insertAddressSchema (Some (JObj o)) = Throw (ZodError errors) ->
     In i errors -> i.(path) <> [u16 f]).
Proof.
  intros Hf Hs.
  pose proof (required_text_field_issues o Hf) as Hin.
  pose proof (key_min_1 o f msg Hs) as Hk.
  split.
  - intros ->.
    assert (Hi : In {| code := u16 "too_small"; path := [u16 f];
                       message := u16 msg |}
                    (fst (insertAddressSchema [] (Some (JObj o))))).
    { apply (issues_at_key _ Hin); rewrite Hk; now left. }
    destruct (parse_object o) as [(v & _ & Hnil)|[Hp _]].
    + rewrite Hnil in Hi; destruct Hi.
    + eexists; split; [exact Hp|exact Hi].
  - intros Hne errors i Hp Hi Hpath.
    destruct (parse_object o) as [(v & Hv & _)|[Hp' _]]; [congruence|].
    rewrite Hp in Hp'; injection Hp' as ->.
    assert (Hi' : In i (fst (key [] o f (ZodString (min 1 msg [])))))
      by (apply (issues_at_key _ Hin); now split).
    rewrite Hk in Hi'; destruct s; [congruence|destruct Hi'].
Qed.

(** C6. When [addressType] is absent its key parses to the valid value
    "home" without an issue: a record that validation returns has
    [addressType] "home", a thrown error holds no violation at [addressType],
    and validation does return when the six other keys raise no issue.  When
    [addressType] is present and is not one of the strings "home", "work" and
    "other", validation throws, with a violation at [addressType]. *)
Theorem addressType_default_and_enum (o : list (jsstring * JS.json)) :
  (lookup (u16 "addressType") o = None ->
   key [] o "addressType" addressType_schema = ([], OK (u16 "home")) /\
   (forall v,
      parse insertAddressSchema (Some (JObj o)) = Return v ->
      v.(InsertAddress.addressType) = u16 "home") /\
   (forall errors i,
      parse insertAddressSchema (Some (JObj o)) = Throw (ZodError errors) ->
      In i errors -> i.(path) <> [u16 "addressType"]) /\
   ((forall f issues,
       In (f, issues) (field_issues o) -> f <> "addressType"%string ->
       issues = []) ->
    exists v,
      parse insertAddressSchema (Some (JObj o)) = Return v /\
      v.(InsertAddress.addressType) = u16 "home")) /\
  (forall x,
     lookup (u16 "addressType") o = Some x ->
     x <> JStr (u16 "home") -> x <> JStr (u16 "work") ->
     x <> JStr (u16 "other") ->
     exists errors i,
       parse insertAddressSchema (Some (JObj o)) = Throw (ZodError errors) /\
       In i errors /\ i.(path) = [u16 "addressType"]).
Proof.
  assert (Hin : In ("addressType"%string,
                    fst (key [] o "addressType" addressType_schema))
                   (field_issues o))
    by (unfold field_issues; simpl; tauto).
  split.
  - intros Habs.
    assert (Hk : key [] o "addressType" addressType_schema
                 = ([], OK (u16 "home")))
      by (unfold key; rewrite Habs; reflexivity).
    assert (Hhome : forall v,
               parse insertAddressSchema (Some (JObj o)) = Return v ->
               v.(InsertAddress.addressType) = u16 "home").
    { intros v Hv; apply parse_Return_OK, insertAddressSchema_OK in Hv.
      destruct Hv as (_ & _ & _ & _ & _ & _ & Hv).
      rewrite Hk in Hv; simpl in Hv; congruence. }
    repeat split; [exact Hk|exact Hhome| |].
    + intros errors i Hp Hi Hpath.
      destruct (parse_object o) as [(v & Hv & _)|[Hp' _]]; [congruence|].
      rewrite Hp in Hp'; injection Hp' as ->.
      assert (Hi' : In i (fst (key [] o "addressType" addressType_schema)))
        by (apply (issues_at_key _ Hin); now split).
      rewrite Hk in Hi'; destruct Hi'.
    + intros Hothers.
      destruct (parse_object o) as [(v & Hv & _)|[_ Hne]].
      * exists v; split; [exact Hv|now apply Hhome].
      * exfalso; apply Hne.
        rewrite insertAddressSchema_issues.
        apply concat_nil_Forall, Forall_forall.
        intros issues Hissues.
        apply in_map_iff in Hissues as ([f x] & <- & Hf); simpl.
        destruct (string_dec f "addressType") as [->|Hne'].
        -- destruct x as [|i x]; [reflexivity|exfalso].
           assert (Hi : In i (fst (key [] o "addressType" addressType_schema))).
           { apply (issues_at_key _ Hin).
             apply (issues_at_key _ Hf); now left. }
           rewrite Hk in Hi; destruct Hi.
        -- exact (Hothers _ _ Hf Hne').
  - intros x Hx Hhome Hwork Hother.
    assert (Hi : exists i,
               In i (fst (key [] o "addressType" addressType_schema)) /\
               i.(path) = [u16 "addressType"]).
    { unfold key; rewrite Hx.
      destruct x as [| | |s| |]; try (eexists; split; [now left|reflexivity]).
      unfold addressType_schema, ZodDefault, ZodEnum.
      assert (E : existsb (str_eqb s) [u16 "home"; u16 "work"; u16 "other"]
                  = false).
      { cbn [existsb]; rewrite !orb_false_iff; repeat split;
          try apply str_eqb_neq; congruence. }
      rewrite E; eexists; split; [now left|reflexivity]. }
    destruct Hi as (i & Hi & Hpath).
    assert (Hi' : In i (fst (insertAddressSchema [] (Some (JObj o)))))
      by (apply (issues_at_key _ Hin); assumption).
    destruct (parse_object o) as [(v & _ & Hnil)|[Hp _]].
    + rewrite Hnil in Hi'; destruct Hi'.
    + exists (fst (insertAddressSchema [] (Some (JObj o)))), i; auto.
Qed.

(** Every check of a string schema runs: the issue of each failing check is
    among the issues of the parse. *)
Lemma ZodString_runs_every_check checks pth s c i :
  In c checks -> In i (run_check pth s c) ->
  In i (fst (ZodString checks pth (Some (JStr s)))).
Proof.
  intros Hc Hi; simpl; apply in_flat_map; now exists c.
Qed.

(** ** The routes *)

(** C2. When validation of a body fails, the submission handler answers 400
    with the list of all issues, which is not empty; the world is left as it
    was: no store call is made and the store is unchanged.  For an object
    body the list holds every issue that each of the seven keys raises on its
    own, and for a [zipCode] string the issue of each of its failing
    checks. *)
Theorem post_addresses_validation_failure
    (body : value) (e : exn) (w : World) :
  parse insertAddressSchema body = Throw e ->
  exists errors,
    e = ZodError errors /\ errors <> [] /\
    post_addresses body w
    = (Return (status_json 400
                 (ValidationFailed (u16 "Validation error") errors)), w) /\
    (forall o f issues i,
       body = Some (JObj o) -> In (f, issues) (field_issues o) ->
       In i issues -> In i errors) /\
    (forall o s c i,
       body = Some (JObj o) -> lookup (u16 "zipCode") o = Some (JStr s) ->
       In c zipCode_checks -> In i (run_check [u16 "zipCode"] s c) ->
       In i errors).
Proof.
  intros Hp.
  pose proof (parse_coherent insertAddressSchema body
                (coherent_insertAddressSchema [] body)) as H.
  rewrite Hp in H; destruct H as [-> Hne].
  exists (fst (insertAddressSchema [] body)).
  assert (Hfields : forall o f issues i,
             body = Some (JObj o) -> In (f, issues) (field_issues o) ->
             In i issues -> In i (fst (insertAddressSchema [] body))).
  { intros o f issues i -> Hf Hi.
    apply In_insertAddressSchema_issues; now exists f, issues. }
  repeat split; try assumption.
  - unfold post_addresses, try_catch, bind, lift; rewrite Hp; reflexivity.
  - intros o s c i Hb Hz Hc Hi.
    apply (Hfields o "zipCode"%string
             (fst (key [] o "zipCode" zipCode_schema)) i Hb).
    + unfold field_issues; simpl; tauto.
    + unfold key; rewrite Hz.
      now apply ZodString_runs_every_check with (c := c).
Qed.

Lemma not_usable_guard (input : option QueryValue) :
  ~ usable input ->
  match input with
  | Some (QString s) => empty s || Nat.ltb (List.length s) 3 = true
  | _ => True
  end.
Proof.
  intros Hnot; destruct input as [[s| |]|]; try exact I.
  destruct (Nat.ltb (List.length s) 3) eqn:E; [apply orb_true_r|].
  exfalso; apply Hnot; exists s; split; [reflexivity|].
  apply Nat.ltb_ge in E; exact E.
Qed.

Lemma usable_guard (s : jsstring) :
  3 <= List.length s -> empty s || Nat.ltb (List.length s) 3 = false.
Proof.
  intros H; destruct s; [simpl in H; lia|].
  apply Nat.ltb_ge in H; now rewrite H.
Qed.

(** An input that does not pass the guard gets an empty prediction list at
    once. *)
Lemma suggestions_not_usable env provider input w :
  ~ usable input ->
  get_places_suggestions env provider input w
  = (Return (json (Predictions [])), w).
Proof.
  intros Hnot; apply not_usable_guard in Hnot.
  unfold get_places_suggestions, try_catch.
  destruct input as [[s| |]|]; try reflexivity.
  now rewrite Hnot.
Qed.

(** C7. For an input string of fewer than three code units the suggestion
    handler answers 200 with an empty prediction list, and the world is left
    as it was: nothing is fetched. *)
Theorem short_input_empty_predictions
    (env : ProcessEnv) (provider : Request -> option FetchResponse)
    (input : jsstring) (w : World) :
  List.length input < 3 ->
  get_places_suggestions env provider (Some (QString input)) w
  = (Return (json (Predictions [])), w).
Proof.
  intros Hlen; apply suggestions_not_usable.
  intros (s & E & Hs); injection E as ->; lia.
Qed.

(** Past the two guards the suggestion handler answers 200 or 500, and
    leaves the store as it was. *)
Lemma suggestions_after_guards env provider s w :
  3 <= List.length s -> GOOGLE_API_KEY env <> [] ->
  exists r w',
    get_places_suggestions env provider (Some (QString s)) w = (Return r, w')
    /\ w'.(storage) = w.(storage)
    /\ (r.(statusCode) = 200 \/ r.(statusCode) = 500)%Z.
Proof.
  intros Hs Hkey; unfold get_places_suggestions, try_catch.
  rewrite (usable_guard _ Hs).
  destruct (GOOGLE_API_KEY env) as [|c key] eqn:Ek; [congruence|].
  cbn [empty]; unfold bind, fetch, response_json, lift, ret, throw.
  unfold autocomplete_url; destruct (well_formed s);
    [|do 2 eexists; split; [reflexivity|split; [reflexivity|now right]]].
  destruct (provider _) as [[ok_ st jb]|]; cbn [ok json_body];
    [|do 2 eexists; split; [reflexivity|split; [reflexivity|now right]]].
  destruct ok_; cbn [negb];
    [|do 2 eexists; split; [reflexivity|split; [reflexivity|now right]]].
  destruct jb as [data|];
    [|do 2 eexists; split; [reflexivity|split; [reflexivity|now right]]].
  destruct (prop (Some data) "status") as [st'|];
    [|do 2 eexists; split; [reflexivity|split; [reflexivity|now right]]].
  destruct (negb (is_string st' "OK") && negb (is_string st' "ZERO_RESULTS"));
    [do 2 eexists; split; [reflexivity|split; [reflexivity|now right]]|].
  destruct (obind _ _); do 2 eexists;
    (split; [reflexivity|]); (split; [reflexivity|]); [now left|now right].
Qed.

(** C10. Whatever the environment, an [input] that is missing, is not a
    single string or has fewer than three code units gets the answer 200
    with an empty prediction list, and nothing is fetched; this holds with
    no key configured too.  The answer 503 is given only to a string of
    three code units or more, when no key is configured, and it is given to
    every such string then. *)
Theorem suggestions_guard_precedes_key_check
    (env : ProcessEnv) (provider : Request -> option FetchResponse)
    (input : option QueryValue) (w : World) :
  (~ usable input ->
   get_places_suggestions env provider input w
   = (Return (json (Predictions [])), w)) /\
  (forall r w',
     get_places_suggestions env provider input w = (Return r, w') ->
     r.(statusCode) = 503%Z ->
     usable input /\ GOOGLE_API_KEY env = []) /\
  (usable input -> GOOGLE_API_KEY env = [] ->
   exists r,
     get_places_suggestions env provider input w = (Return r, w) /\
     r.(statusCode) = 503%Z).
Proof.
  split; [|split].
  - apply suggestions_not_usable.
  - intros r w' Hrun H503.
    destruct input as [[s| |]|];
      try (injection Hrun as <- _; discriminate H503).
    destruct (Nat.ltb (List.length s) 3) eqn:Hlen.
    + apply Nat.ltb_lt in Hlen.
      rewrite suggestions_not_usable in Hrun.
      * injection Hrun as <- _; discriminate H503.
      * intros (s' & E & Hs'); injection E as ->; lia.
    + apply Nat.ltb_ge in Hlen.
      split; [now exists s|].
      destruct (GOOGLE_API_KEY env) as [|c key] eqn:Ek; [reflexivity|].
      destruct (@suggestions_after_guards env provider s w Hlen)
        as (r' & w'' & Hr' & _ & Hcode); [congruence|].
      rewrite Hrun in Hr'; injection Hr' as <- _.
      destruct Hcode as [E|E]; rewrite E in H503; discriminate H503.
  - intros (s & -> & Hlen) Hkey.
    unfold get_places_suggestions, try_catch.
    rewrite (usable_guard _ Hlen), Hkey; cbn [empty].
    eexists; split; reflexivity.
Qed.

(** Reading [data.status] agrees with [provider_status] wherever the read
    does not throw. *)
Lemma prop_status (data : JS.json) :
  prop (Some data) "status" = Throw TypeError \/
  prop (Some data) "status" = Return (provider_status data).
Proof. destruct data; simpl; auto. Qed.

Lemma prop_status_OK (data : JS.json) (s : string) :
  is_string (provider_status data) s = true ->
  prop (Some data) "status" = Return (provider_status data).
Proof. destruct data; simpl; try discriminate; reflexivity. Qed.

(** The failure conditions of the suggestion handler, for comparison: with a
    key and a usable, well-formed input, 500 on a non-success transport
    response and on a provider status that is neither "OK" nor
    "ZERO_RESULTS". *)
Lemma suggestions_failure_conditions env provider s w response data :
  3 <= List.length s -> well_formed s = true -> GOOGLE_API_KEY env <> [] ->
  provider (Autocomplete s (GOOGLE_API_KEY env)) = Some response ->
  response.(json_body) = Some data ->
  exists r,
    fst (get_places_suggestions env provider (Some (QString s)) w) = Return r /\
    (response.(ok) = false \/
     (is_string (provider_status data) "OK" = false /\
      is_string (provider_status data) "ZERO_RESULTS" = false) ->
     r.(statusCode) = 500%Z) /\
    (response.(ok) = true ->
     is_string (provider_status data) "OK" = true \/
     is_string (provider_status data) "ZERO_RESULTS" = true ->
     match predictions <~ prop (Some data) "predictions" ;;
           suggestions_of predictions with
     | Return suggestions => r = json (Predictions suggestions)
     | Throw _ => r.(statusCode) = 500%Z
     end).
Proof.
  intros Hs Hwf Hkey Hprov Hjson; unfold get_places_suggestions, try_catch.
  rewrite (usable_guard _ Hs).
  destruct (GOOGLE_API_KEY env) as [|c key] eqn:Ek; [congruence|].
  cbn [empty]; unfold bind, fetch, response_json, lift, ret, throw.
  unfold autocomplete_url; rewrite Hwf, Hprov, Hjson.
  destruct (ok response); cbn [negb fst].
  - destruct (prop_status data) as [E|E]; rewrite E; cbn [fst].
    + eexists; split; [reflexivity|]; split; [reflexivity|].
      intros _ [H|H]; apply prop_status_OK in H; congruence.
    + destruct (is_string (provider_status data) "OK");
        destruct (is_string (provider_status data) "ZERO_RESULTS");
        cbn [negb andb];
        try (destruct (obind _ _); eexists; (split; [reflexivity|]);
             (split;
              [intros [H|[H1 H2]]; congruence|intros _ _; reflexivity])).
      eexists; split; [reflexivity|]; split;
        [reflexivity|intros _ [H|H]; discriminate].
  - eexists; split; [reflexivity|]; split; [reflexivity|discriminate].
Qed.

(** C8, as the code has it. With no key configured the detail handler
    answers 503 and fetches nothing.  With a key, when the provider answers
    with a JSON body, the handler fetches once and answers 500 on a
    non-success transport response and on every provider status other than
    "OK", "ZERO_RESULTS" included; on a success transport response with
    status "OK" it answers 200 with the details, or 500 when reading the
    components throws. *)
Theorem details_failure_conditions
    (env : ProcessEnv) (provider : Request -> option FetchResponse)
    (placeId : jsstring) (w : World) :
  (GOOGLE_API_KEY env = [] ->
   get_places_details env provider placeId w
   = (Return (status_json 503
                (Failed (u16 "Google Places API key not configured")
                   (u16 "Address details service is temporarily unavailable"))),
      w)) /\
  (GOOGLE_API_KEY env <> [] ->
   forall response data,
     provider (PlaceDetails placeId (GOOGLE_API_KEY env)) = Some response ->
     response.(json_body) = Some data ->
     exists r,
       get_places_details env provider placeId w
       = (Return r,
          {| storage := w.(storage);
             trace := w.(trace)
                      ++ [Fetch (PlaceDetails placeId (GOOGLE_API_KEY env))] |})
       /\
       (response.(ok) = false \/ is_string (provider_status data) "OK" = false ->
        r.(statusCode) = 500%Z) /\
       (provider_status data = Some (JStr (u16 "ZERO_RESULTS")) ->
        r.(statusCode) = 500%Z) /\
       (response.(ok) = true ->
        is_string (provider_status data) "OK" = true ->
        match details_of (Some data) with
        | Return details => r = json (Details details)
        | Throw _ => r.(statusCode) = 500%Z
        end)).
Proof.
  split.
  - intros Hkey; unfold get_places_details, try_catch; rewrite Hkey.
    reflexivity.
  - intros Hkey response data Hprov Hjson.
    unfold get_places_details, try_catch.
    destruct (GOOGLE_API_KEY env) as [|c key] eqn:Ek; [congruence|].
    cbn [empty]; unfold bind, fetch, response_json, lift, ret, throw.
    rewrite Hprov, Hjson.
    destruct (ok response); cbn [negb].
    + destruct (prop_status data) as [E|E]; rewrite E.
      * eexists; split; [reflexivity|]; repeat split; try reflexivity.
        intros _ H; apply prop_status_OK in H; congruence.
      * destruct (is_string (provider_status data) "OK") eqn:Eok; cbn [negb].
        -- destruct (details_of (Some data)); eexists;
             (split; [reflexivity|]);
             (split; [intros [H|H]; congruence|]);
             (split; [intros H; rewrite H in Eok; discriminate Eok|]);
             intros _ _; reflexivity.
        -- eexists; split; [reflexivity|]; repeat split; try reflexivity.
           discriminate.
    + eexists; split; [reflexivity|]; repeat split; try reflexivity.
      discriminate.
Qed.

(** ** Concrete runs *)

(** The first example of the specification: the record is stored under a
    fresh id, without an apartment, and returned with status 201. *)
Example main_street_created :
  post_addresses main_street start
  = (Return (status_json 201 (Created (spread main_street_validated 1))),
     {| storage := snd (createAddress constructor main_street_validated);
        trace := [CreateAddress main_street_validated] |}).
Proof. reflexivity. Qed.

(** A provider answer with two predictions, the second without structured
    fields: its description becomes the main text, the secondary text is
    empty. *)
Example two_predictions_mapped :
  fst (get_places_suggestions with_key (answering two_predictions)
         (Some (QString (u16 "1 Main"))) start)
  = Return (json (Predictions
      [ {| placeId := Some (JStr (u16 "p1"));
           description := Some (JStr (u16 "1 Main St, Springfield"));
           mainText := Some (JStr (u16 "1 Main St"));
           secondaryText := Some (JStr (u16 "Springfield")) |};
        {| placeId := Some (JStr (u16 "p2"));
           description := Some (JStr (u16 "1 Main Ave"));
           mainText := Some (JStr (u16 "1 Main Ave"));
           secondaryText := Some (JStr []) |} ])).
Proof. reflexivity. Qed.

(** An input with a lone surrogate: building the URL throws, nothing is
    fetched and the answer is 500. *)
Example lone_surrogate_not_fetched :
  get_places_suggestions with_key (answering two_predictions)
    (Some (QString (u16 "1 Main" ++ [55296%N]))) start
  = (Return (status_json 500
               (Failed (u16 "Failed to fetch address suggestions")
                  (u16 "Address autocomplete service is temporarily unavailable"))),
     start).
Proof. reflexivity. Qed.

(** A provider answer with one component of type locality. *)
Example one_component_resolved :
  get_places_details with_key (answering one_component) (u16 "p1") start
  = (Return (json (Details
       {| streetNumber := None; route := None;
          locality := Some (JStr (u16 "Springfield"));
          administrativeAreaLevel1 := None; postalCode := None;
          country := None |})),
     {| storage := constructor;
        trace := [Fetch (PlaceDetails (u16 "p1") (u16 "secret"))] |}).
Proof. reflexivity. Qed.

Lemma createAddress_then_getAddressById_witness :
  parse insertAddressSchema main_street = Return main_street_validated /\
  getAddressById (snd (createAddress constructor main_street_validated)) 1
  = Some (spread main_street_validated 1).
Proof.
  assert (H : parse insertAddressSchema main_street
              = Return main_street_validated) by reflexivity.
  split; [exact H|].
  destruct (@createAddress_then_getAddressById
              main_street main_street_validated constructor H) as [Hget _].
  exact Hget.
Defined.

Lemma post_addresses_validation_failure_witness :
  parse insertAddressSchema bad_street_and_zip
  = Throw (ZodError bad_street_and_zip_errors) /\
  post_addresses bad_street_and_zip start
  = (Return (status_json 400
               (ValidationFailed (u16 "Validation error")
                  bad_street_and_zip_errors)), start).
Proof.
  assert (H : parse insertAddressSchema bad_street_and_zip
              = Throw (ZodError bad_street_and_zip_errors)) by reflexivity.
  split; [exact H|].
  destruct (@post_addresses_validation_failure
              bad_street_and_zip (ZodError bad_street_and_zip_errors) start H)
    as (errors & E & _ & Hrun & _).
  injection E as <-; exact Hrun.
Defined.

Lemma zipCode_rule_witness :
  lookup (u16 "zipCode") main_street_props = Some (JStr (u16 "62704")) /\
  key [] main_street_props "zipCode" zipCode_schema = ([], OK (u16 "62704")).
Proof.
  assert (H : lookup (u16 "zipCode") main_street_props
              = Some (JStr (u16 "62704"))) by reflexivity.
  split; [exact H|].
  destruct (@zipCode_rule main_street_props (u16 "62704") H)
    as (_ & _ & Hyes).
  apply Hyes, matches_Matches; reflexivity.
Defined.

Lemma country_omitted_is_rejected :
  lookup (u16 "country") no_country_props = None /\
  parse insertAddressSchema no_country = Throw (ZodError [country_required]) /\
  ~ (exists v, parse insertAddressSchema no_country = Return v /\
               v.(InsertAddress.country) = u16 "US").
Proof.
  split; [reflexivity|]; split; [reflexivity|].
  intros (v & Hv & _); vm_compute in Hv; discriminate Hv.
Qed.

Lemma country_is_required_witness :
  lookup (u16 "country") no_country_props = None /\
  exists errors,
    parse insertAddressSchema no_country = Throw (ZodError errors) /\
    In country_required errors.
Proof.
  assert (H : lookup (u16 "country") no_country_props = None) by reflexivity.
  split; [exact H|].
  exact (@country_is_required no_country_props H).
Defined.

Lemma blank_street_is_accepted :
  trim (u16 "   ") = [] /\
  lookup (u16 "streetAddress") blank_street_props = Some (JStr (u16 "   ")) /\
  parse insertAddressSchema blank_street = Return blank_street_validated.
Proof. repeat split. Qed.

Lemma required_text_rejects_empty_only_witness :
  In ("streetAddress", "Street address is required")%string
     required_text_fields /\
  lookup (u16 "streetAddress") bad_street_and_zip_props = Some (JStr []) /\
  exists errors,
    parse insertAddressSchema bad_street_and_zip = Throw (ZodError errors) /\
    In {| code := u16 "too_small"; path := [u16 "streetAddress"];
          message := u16 "Street address is required" |} errors.
Proof.
  assert (Hf : In ("streetAddress", "Street address is required")%string
                  required_text_fields) by (simpl; tauto).
  assert (Hs : lookup (u16 "streetAddress") bad_street_and_zip_props
               = Some (JStr [])) by reflexivity.
  split; [exact Hf|]; split; [exact Hs|].
  destruct (@required_text_rejects_empty_only
              "streetAddress" "Street address is required"
              bad_street_and_zip_props [] Hf Hs) as [Hempty _].
  exact (Hempty eq_refl).
Defined.

Lemma addressType_default_and_enum_witness :
  (lookup (u16 "addressType") blank_street_props = None /\
   blank_street_validated.(InsertAddress.addressType) = u16 "home") /\
  (lookup (u16 "addressType") office_props = Some (JStr (u16 "office")) /\
   exists errors i,
     parse insertAddressSchema (Some (JObj office_props))
     = Throw (ZodError errors) /\
     In i errors /\ i.(path) = [u16 "addressType"]).
Proof.
  split.
  - assert (H : lookup (u16 "addressType") blank_street_props = None)
      by reflexivity.
    split; [exact H|].
    destruct (@addressType_default_and_enum blank_street_props)
      as [Habsent _].
    destruct (Habsent H) as (_ & Hhome & _).
    apply Hhome; reflexivity.
  - assert (H : lookup (u16 "addressType") office_props
                = Some (JStr (u16 "office"))) by reflexivity.
    split; [exact H|].
    destruct (@addressType_default_and_enum office_props) as [_ Hpresent].
    apply (Hpresent _ H); vm_compute; discriminate.
Defined.

Lemma short_input_empty_predictions_witness :
  List.length (u16 "ab") < 3 /\
  get_places_suggestions with_key (answering zero_results)
    (Some (QString (u16 "ab"))) start
  = (Return (json (Predictions [])), start).
Proof.
  assert (H : List.length (u16 "ab") < 3) by (simpl; lia).
  split; [exact H|].
  exact (@short_input_empty_predictions
           with_key (answering zero_results) (u16 "ab") start H).
Defined.

(** The provider finds nothing: the suggestion handler answers 200 with an
    empty list, the detail handler answers 500. *)
Lemma details_zero_results_is_failure :
  provider_status zero_results = Some (JStr (u16 "ZERO_RESULTS")) /\
  fst (get_places_suggestions with_key (answering zero_results)
         (Some (QString (u16 "1 Main"))) start)
  = Return (json (Predictions [])) /\
  fst (get_places_details with_key (answering zero_results)
         (u16 "place") start)
  = Return (status_json 500
              (Failed (u16 "Failed to fetch address details")
                 (u16 "Address details service is temporarily unavailable"))).
Proof. repeat split. Qed.

Lemma details_failure_conditions_witness :
  (GOOGLE_API_KEY without_key = [] /\
   get_places_details without_key (answering one_component) (u16 "place") start
   = (Return (unavailable "Address details service is temporarily unavailable"),
      start)) /\
  (GOOGLE_API_KEY with_key <> [] /\
   exists r,
     fst (get_places_details with_key (answering zero_results)
            (u16 "place") start) = Return r /\
     r.(statusCode) = 500%Z).
Proof.
  split.
  - assert (H : GOOGLE_API_KEY without_key = []) by reflexivity.
    split; [exact H|].
    destruct (@details_failure_conditions
                without_key (answering one_component) (u16 "place") start)
      as [Hnone _].
    exact (Hnone H).
  - assert (H : GOOGLE_API_KEY with_key <> []) by (vm_compute; discriminate).
    split; [exact H|].
    destruct (@details_failure_conditions
                with_key (answering zero_results) (u16 "place") start)
      as [_ Hkey].
    destruct (Hkey H _ zero_results eq_refl eq_refl)
      as (r & Hrun & _ & Hzero & _).
    exists r; split; [now rewrite Hrun|].
    apply Hzero; reflexivity.
Defined.

Lemma suggestions_guard_precedes_key_check_witness :
  (~ usable None /\
   get_places_suggestions without_key (answering zero_results) None start
   = (Return (json (Predictions [])), start)) /\
  (usable (Some (QString (u16 "1 Main"))) /\
   GOOGLE_API_KEY without_key = [] /\
   exists r,
     get_places_suggestions without_key (answering zero_results)
       (Some (QString (u16 "1 Main"))) start = (Return r, start) /\
     r.(statusCode) = 503%Z).
Proof.
  split.
  - assert (H : ~ usable None) by (intros (s & E & _); discriminate E).
    split; [exact H|].
    destruct (@suggestions_guard_precedes_key_check
                without_key (answering zero_results) None start)
      as [Hshort _].
    exact (Hshort H).
  - assert (H : usable (Some (QString (u16 "1 Main"))))
      by (exists (u16 "1 Main"); split; [reflexivity|simpl; lia]).
    assert (Hkey : GOOGLE_API_KEY without_key = []) by reflexivity.
    split; [exact H|]; split; [exact Hkey|].
    destruct (@suggestions_guard_precedes_key_check
                without_key (answering zero_results)
                (Some (QString (u16 "1 Main"))) start)
      as (_ & _ & H503).
    exact (H503 H Hkey).
Defined.

(** * Further properties *)

(** ** The store, on every reachable state *)

Lemma count_from_snoc (n : nat) :
  forall from,
    count_from from (S n) = count_from from n ++ [(from + Z.of_nat n)%Z].
Proof.
  induction n as [|n IH]; intros from.
  - simpl; now rewrite Z.add_0_r.
  - change (count_from from (S (S n)))
      with (from :: count_from (from + 1) (S n)).
    rewrite IH; simpl; do 3 f_equal; lia.
Qed.

Lemma In_count_from (n : nat) :
  forall from x,
    In x (count_from from n) <-> (from <= x < from + Z.of_nat n)%Z.
Proof.
  induction n as [|n IH]; intros from x.
  - simpl; lia.
  - change (count_from from (S n)) with (from :: count_from (from + 1) n).
    simpl In; rewrite IH; lia.
Qed.

Lemma count_from_length (n : nat) :
  forall from, List.length (count_from from n) = n.
Proof.
  induction n as [|n IH]; intros from; simpl; [reflexivity|now rewrite IH].
Qed.

(** A map whose keys are the numbers of its values, counted from 1, takes a
    value numbered next at its end and stays such a map. *)
Lemma Map_set_next (V : Type) (key : V -> Z) (m : Map V) (v : V) :
  m = List.map (fun x => (key x, x)) (Map_values m) ->
  List.map key (Map_values m) = count_from 1 (List.length (Map_values m)) ->
  key v = (1 + Z.of_nat (List.length (Map_values m)))%Z ->
  let m' := Map_set m (key v) v in
  Map_values m' = Map_values m ++ [v] /\
  m' = List.map (fun x => (key x, x)) (Map_values m') /\
  List.map key (Map_values m')
  = count_from 1 (List.length (Map_values m')).
Proof.
  intros Hm Hkeys Hv m'.
  assert (Hfresh : Forall (fun e => (fst e < key v)%Z) m).
  { rewrite Hm; apply Forall_forall; intros [k x] Hin.
    apply in_map_iff in Hin as (y & E & Hy); injection E as <- <-; simpl.
    assert (Hk : In (key y) (List.map key (Map_values m)))
      by (apply in_map; exact Hy).
    rewrite Hkeys in Hk; apply In_count_from in Hk; lia. }
  assert (E : m' = m ++ [(key v, v)]) by (apply Map_set_fresh; exact Hfresh).
  assert (Hvals : Map_values m' = Map_values m ++ [v])
    by (unfold Map_values; rewrite E, map_app; reflexivity).
  split; [exact Hvals|]; split.
  - rewrite Hvals, map_app, <- Hm; exact E.
  - rewrite Hvals, map_app, length_app, Hkeys; simpl.
    rewrite Nat.add_1_r, count_from_snoc, Hv; reflexivity.
Qed.

(** The numbering of a reachable store: each map is keyed by the ids of its
    values, the ids are 1, 2, ... in creation order and the counter is one
    more than the number of values. *)
Lemma reachable_numbering (this : MemStorage) :
  reachable this ->
  (this.(addresses)
   = List.map (fun a => (a.(Address.id), a)) (getAddresses this) /\
   List.map Address.id (getAddresses this)
   = count_from 1 (List.length (getAddresses this)) /\
   this.(currentAddressId)
   = (1 + Z.of_nat (List.length (getAddresses this)))%Z) /\
  (this.(users)
   = List.map (fun u => (u.(User.id), u)) (Map_values this.(users)) /\
   List.map User.id (Map_values this.(users))
   = count_from 1 (List.length (Map_values this.(users))) /\
   this.(currentUserId)
   = (1 + Z.of_nat (List.length (Map_values this.(users))))%Z).
Proof.
  induction 1 as [|this insertUser _ [IHa IHu]|this insertAddress _ [IHa IHu]].
  - repeat split.
  - split; [exact IHa|].
    destruct IHu as (Hm & Hkeys & Hc).
    set (user := fst (createUser this insertUser)).
    assert (Hid : user.(User.id)
                  = (1 + Z.of_nat (List.length (Map_values this.(users))))%Z)
      by (simpl; exact Hc).
    destruct (@Map_set_next _ User.id this.(users) user Hm Hkeys Hid)
      as (Hvals & Hm' & Hkeys').
    change (snd (createUser this insertUser))
      with {| users := Map_set this.(users) user.(User.id) user;
              addresses := this.(addresses);
              currentUserId := user.(User.id) + 1;
              currentAddressId := this.(currentAddressId) |}.
    cbn [users currentUserId] in *.
    repeat split; try assumption.
    rewrite Hvals, length_app, Hid; cbn [List.length]; lia.
  - split; [|exact IHu].
    destruct IHa as (Hm & Hkeys & Hc).
    set (address := fst (createAddress this insertAddress)).
    assert (Hid : address.(Address.id)
                  = (1 + Z.of_nat (List.length (getAddresses this)))%Z)
      by (simpl; exact Hc).
    destruct (@Map_set_next _ Address.id this.(addresses) address Hm Hkeys Hid)
      as (Hvals & Hm' & Hkeys').
    change (snd (createAddress this insertAddress))
      with {| users := this.(users);
              addresses := Map_set this.(addresses) address.(Address.id) address;
              currentUserId := this.(currentUserId);
              currentAddressId := address.(Address.id) + 1 |}.
    unfold getAddresses in *; cbn [addresses currentAddressId] in *.
    repeat split; try assumption.
    rewrite Hvals, length_app, Hid; cbn [List.length]; lia.
Qed.

Lemma Map_values_set (V : Type) (m : Map V) (k : Z) (v x : V) :
  In x (Map_values (Map_set m k v)) -> x = v \/ In x (Map_values m).
Proof.
  unfold Map_values; induction m as [|[k' v'] m IH]; simpl.
  - intros [<-|[]]; now left.
  - destruct (Z.eqb k k'); simpl.
    + intros [<-|H]; auto.
    + intros [<-|H]; auto.
      destruct (IH H); auto.
Qed.

(** X1. On every reachable store the address map is keyed by the ids of its
    records, the ids are 1, 2, ... in creation order and the counter is one
    more than the number of records; the same holds of the users; and no
    stored address has a user. *)
Theorem store_numbering (this : MemStorage) :
  reachable this ->
  (this.(addresses)
   = List.map (fun a => (a.(Address.id), a)) (getAddresses this) /\
   List.map Address.id (getAddresses this)
   = count_from 1 (List.length (getAddresses this)) /\
   this.(currentAddressId)
   = (1 + Z.of_nat (List.length (getAddresses this)))%Z) /\
  (this.(users)
   = List.map (fun u => (u.(User.id), u)) (Map_values this.(users)) /\
   List.map User.id (Map_values this.(users))
   = count_from 1 (List.length (Map_values this.(users))) /\
   this.(currentUserId)
   = (1 + Z.of_nat (List.length (Map_values this.(users))))%Z) /\
  Forall (fun a => a.(Address.userId) = None) (getAddresses this).
Proof.
  intros Hr; destruct (reachable_numbering Hr) as [Ha Hu].
  split; [exact Ha|]; split; [exact Hu|].
  clear Ha Hu; induction Hr as [|this insertUser _ IH|this insertAddress _ IH].
  - constructor.
  - exact IH.
  - apply Forall_forall; intros a Hin.
    unfold getAddresses, createAddress in Hin; cbn [snd addresses] in Hin.
    apply Map_values_set in Hin as [->|Hin]; [reflexivity|].
    rewrite Forall_forall in IH; now apply IH.
Qed.

Lemma Map_get_keyed (V : Type) (key : V -> Z) (l : list V) (id : Z) (v : V) :
  Map_get (List.map (fun x => (key x, x)) l) id = Some v -> key v = id.
Proof.
  induction l as [|x l IH]; simpl; [discriminate|].
  destruct (Z.eqb id (key x)) eqn:E; [|exact IH].
  intros H; injection H as <-; apply Z.eqb_eq in E; congruence.
Qed.

Lemma Map_get_numbered (V : Type) (key : V -> Z) (l : list V) :
  forall from id,
    List.map key l = count_from from (List.length l) ->
    Map_get (List.map (fun x => (key x, x)) l) id
    = if ((from <=? id) && (id <? from + Z.of_nat (List.length l)))%Z
      then nth_error l (Z.to_nat (id - from))
      else None.
Proof.
  induction l as [|x l IH]; intros from id Hkeys.
  - simpl; destruct ((from <=? id) && (id <? from + 0))%Z eqn:E;
      [|reflexivity].
    apply andb_prop in E as [E1 E2].
    apply Z.leb_le in E1; apply Z.ltb_lt in E2; lia.
  - change (count_from from (List.length (x :: l)))
      with (from :: count_from (from + 1) (List.length l)) in Hkeys.
    simpl in Hkeys; injection Hkeys as Hx Hrest.
    cbn [List.map Map_get]; rewrite Hx.
    destruct (Z.eqb id from) eqn:E.
    + apply Z.eqb_eq in E; subst id.
      replace ((from <=? from) && (from <? from + Z.of_nat (List.length (x :: l))))%Z
        with true.
      * now rewrite Z.sub_diag.
      * symmetry; apply andb_true_intro; split;
          [apply Z.leb_le|apply Z.ltb_lt]; cbn [List.length]; lia.
    + apply Z.eqb_neq in E; rewrite (IH (from + 1)%Z id Hrest).
      destruct (Z.leb_spec (from + 1) id), (Z.leb_spec from id);
        try lia; cbn [andb]; [|reflexivity].
      destruct (Z.ltb_spec id (from + 1 + Z.of_nat (List.length l))),
               (Z.ltb_spec id (from + Z.of_nat (List.length (x :: l))));
        cbn [List.length] in *; try lia; [|reflexivity].
      replace (Z.to_nat (id - from)) with (S (Z.to_nat (id - (from + 1))))
        by lia.
      reflexivity.
Qed.

(** A record found by id on a reachable store carries that id, which lies
    below the counter. *)
Lemma getAddressById_by_rank_aux this id a :
  reachable this -> getAddressById this id = Some a ->
  a.(Address.id) = id /\ (id < this.(currentAddressId))%Z.
Proof.
  intros Hr Hget; destruct (reachable_numbering Hr) as [(Hm & Hkeys & Hc) _].
  unfold getAddressById in Hget; rewrite Hm in Hget.
  pose proof (Map_get_keyed _ _ _ Hget) as Hid.
  rewrite (Map_get_numbered Address.id (getAddresses this) 1 id Hkeys) in Hget.
  split; [exact Hid|].
  destruct ((1 <=? id) && (id <? 1 + Z.of_nat (List.length (getAddresses this))))%Z
    eqn:E; [|discriminate Hget].
  apply andb_prop in E as [_ E]; apply Z.ltb_lt in E; lia.
Qed.

(** X2. On a reachable store [getAddressById] finds, for an id from 1 up to
    the number of records, the record created at that rank, which carries
    that id; for every other id it finds nothing. *)
Theorem getAddressById_by_rank (this : MemStorage) (id : Z) :
  reachable this ->
  getAddressById this id
  = (if ((1 <=? id) && (id <=? Z.of_nat (List.length (getAddresses this))))%Z
     then nth_error (getAddresses this) (Z.to_nat (id - 1))
     else None) /\
  (forall a, getAddressById this id = Some a -> a.(Address.id) = id).
Proof.
  intros Hr; destruct (reachable_numbering Hr) as [(Hm & Hkeys & _) _].
  unfold getAddressById; rewrite Hm; split.
  - rewrite (Map_get_numbered Address.id (getAddresses this) 1 id Hkeys).
    replace (id <? 1 + Z.of_nat (List.length (getAddresses this)))%Z
      with (id <=? Z.of_nat (List.length (getAddresses this)))%Z;
      [reflexivity|].
    destruct (Z.leb_spec id (Z.of_nat (List.length (getAddresses this)))),
             (Z.ltb_spec id (1 + Z.of_nat (List.length (getAddresses this))));
      try reflexivity; lia.
  - intros a; apply Map_get_keyed.
Qed.

(** X3. On a reachable store [createAddress] appends: the listing grows by
    the new record at its end, the new id is one more than the number of
    records before, every record found by id before is still found
    unchanged, and the users are not touched. *)
Theorem createAddress_appends
    (this : MemStorage) (insertAddress : InsertAddress.t) :
  reachable this ->
  let address := fst (createAddress this insertAddress) in
  let this' := snd (createAddress this insertAddress) in
  getAddresses this' = getAddresses this ++ [address] /\
  address.(Address.id) = (1 + Z.of_nat (List.length (getAddresses this)))%Z /\
  (forall id a,
     getAddressById this id = Some a -> getAddressById this' id = Some a) /\
  this'.(users) = this.(users) /\
  this'.(currentUserId) = this.(currentUserId).
Proof.
  intros Hr address this'.
  destruct (reachable_numbering Hr) as [(Hm & Hkeys & Hc) _].
  assert (Hid : address.(Address.id)
                = (1 + Z.of_nat (List.length (getAddresses this)))%Z)
    by (simpl; exact Hc).
  destruct (@Map_set_next _ Address.id this.(addresses) address Hm Hkeys Hid)
    as (Hvals & _ & _).
  repeat split; try assumption.
  intros id a Hget.
  unfold getAddressById, this', createAddress; cbn [snd addresses].
  rewrite Map_get_set_other; [exact Hget|].
  destruct (@getAddressById_by_rank_aux this id a Hr Hget) as [Hid' Hle].
  change this.(currentAddressId) with address.(Address.id); lia.
Qed.


Lemma find_app (A : Type) (f : A -> bool) (l l' : list A) :
  find f (l ++ l')
  = match find f l with
    | Some x => Some x
    | None => find f l'
    end.
Proof.
  induction l as [|x l IH]; simpl; [reflexivity|].
  destruct (f x); [reflexivity|exact IH].
Qed.

(** X5. [createUser] accepts a name that is already taken.  On a reachable
    store, a lookup by name after the creation returns the user that held
    the name before, if there was one; otherwise the new user when the names
    are equal, and nothing when they differ. *)
Theorem getUserByUsername_after_createUser
    (this : MemStorage) (insertUser : InsertUser.t) (username : jsstring) :
  reachable this ->
  getUserByUsername (snd (createUser this insertUser)) username
  = match getUserByUsername this username with
    | Some earlier => Some earlier
    | None =>
        if str_eqb insertUser.(InsertUser.username) username
        then Some (fst (createUser this insertUser))
        else None
    end.
Proof.
  intros Hr; destruct (reachable_numbering Hr) as [_ (Hm & Hkeys & Hc)].
  set (user := fst (createUser this insertUser)).
  assert (Hid : user.(User.id)
                = (1 + Z.of_nat (List.length (Map_values this.(users))))%Z)
    by (simpl; exact Hc).
  destruct (@Map_set_next _ User.id this.(users) user Hm Hkeys Hid)
    as (Hvals & _ & _).
  unfold getUserByUsername.
  change (users (snd (createUser this insertUser)))
    with (Map_set this.(users) user.(User.id) user).
  rewrite Hvals, find_app.
  destruct (find _ (Map_values this.(users))); reflexivity.
Qed.

(** ** The schema, exactly *)

Lemma required_text_OK (msg : string) pth data s :
  snd (ZodString (min 1 msg []) pth data) = OK s <->
  data = Some (JStr s) /\ s <> [].
Proof.
  unfold ZodString, min; split.
  - destruct data as [[| | |x| |]|]; simpl; try discriminate.
    destruct x; simpl; [discriminate|].
    intros E; injection E as <-; split; [reflexivity|discriminate].
  - intros [-> Hne]; destruct s; [congruence|reflexivity].
Qed.

Lemma zipCode_OK pth data s :
  snd (zipCode_schema pth data) = OK s <->
  data = Some (JStr s) /\ zip_code_shape s.
Proof.
  rewrite <- ZIP_PATTERN_shape.
  unfold zipCode_schema, zipCode_checks, ZodString, regex_check, min; split.
  - destruct data as [[| | |x| |]|]; simpl; try discriminate.
    rewrite app_nil_r.
    destruct (RegExp.test ZIP_PATTERN x) eqn:E.
    + destruct x; [discriminate E|]; simpl.
      intros H; injection H as <-; now split.
    + destruct (Nat.ltb (List.length x) 1); simpl; discriminate.
  - intros [-> Ht]; simpl; rewrite app_nil_r, Ht.
    destruct s; [discriminate Ht|reflexivity].
Qed.

Lemma apartment_OK pth data x :
  snd (apartment_schema pth data) = OK x <->
  match data with
  | None => x = None
  | Some (JStr s) => x = Some s
  | Some _ => False
  end.
Proof.
  unfold apartment_schema, ZodOptional, ZodString.
  destruct data as [[| | |s| |]|]; simpl; split; try discriminate;
    try contradiction; try congruence.
Qed.

Lemma addressType_OK pth data s :
  snd (addressType_schema pth data) = OK s <->
  In s [u16 "home"; u16 "work"; u16 "other"] /\
  match data with
  | None => s = u16 "home"
  | Some (JStr x) => s = x
  | Some _ => False
  end.
Proof.
  assert (Hin : forall x,
             existsb (str_eqb x) [u16 "home"; u16 "work"; u16 "other"] = true
             <-> In x [u16 "home"; u16 "work"; u16 "other"]).
  { intros x; rewrite existsb_exists; split.
    - intros (y & Hy & E); apply str_eqb_eq in E; now subst.
    - intros H; exists x; split; [exact H|apply str_eqb_refl]. }
  unfold addressType_schema, ZodDefault, ZodEnum.
  destruct data as [[| | |x| |]|]; cbn [snd];
    try (split; [discriminate|intros [_ []]]).
  - destruct (existsb (str_eqb x) [u16 "home"; u16 "work"; u16 "other"])
      eqn:E; cbn [snd].
    + split; [intros H; injection H as <-|intros [_ ->]; reflexivity].
      split; [now apply Hin|reflexivity].
    + split; [discriminate|intros [H ->]].
      apply Hin in H; congruence.
  - change (existsb (str_eqb (u16 "home"))
              [u16 "home"; u16 "work"; u16 "other"]) with true; cbn [snd].
    split; [intros H; injection H as <-|intros [_ ->]; reflexivity].
    split; [simpl; tauto|reflexivity].
Qed.

(** What a record returned by validation of an object tells of the
    object. *)
Lemma validation_returns_fields
    (o : list (jsstring * JS.json)) (v : InsertAddress.t) :
  parse insertAddressSchema (Some (JObj o)) = Return v ->
  lookup (u16 "streetAddress") o = Some (JStr v.(InsertAddress.streetAddress)) /\
  lookup (u16 "city") o = Some (JStr v.(InsertAddress.city)) /\
  lookup (u16 "state") o = Some (JStr v.(InsertAddress.state)) /\
  lookup (u16 "zipCode") o = Some (JStr v.(InsertAddress.zipCode)) /\
  lookup (u16 "country") o = Some (JStr v.(InsertAddress.country)) /\
  valid_input v /\
  match lookup (u16 "apartment") o with
  | None => v.(InsertAddress.apartment) = None
  | Some (JStr s) => v.(InsertAddress.apartment) = Some s
  | Some _ => False
  end /\
  match lookup (u16 "addressType") o with
  | None => v.(InsertAddress.addressType) = u16 "home"
  | Some (JStr s) => v.(InsertAddress.addressType) = s
  | Some _ => False
  end.
Proof.
  unfold valid_input.
  intros Hp; apply parse_Return_OK, insertAddressSchema_OK in Hp.
  destruct Hp as (H1 & H2 & H3 & H4 & H5 & H6 & H7).
  apply required_text_OK in H1 as [H1 N1], H2 as [H2 N2], H3 as [H3 N3],
    H5 as [H5 N5].
  apply zipCode_OK in H4 as [H4 N4].
  apply apartment_OK in H6; apply addressType_OK in H7 as [N7 H7].
  repeat split; assumption.
Qed.

(** X6. Validation of an object returns a record exactly when the five
    required keys hold strings, three of them and the country non-empty and
    the postal code of the five or five-plus-four digit shape, [apartment]
    is absent or a string, and [addressType] is absent or one of the three
    literals; the record then holds these strings, an absent apartment as
    absent and an absent address type as "home". *)
Theorem validation_returns_exactly
    (o : list (jsstring * JS.json)) (v : InsertAddress.t) :
  parse insertAddressSchema (Some (JObj o)) = Return v <->
  lookup (u16 "streetAddress") o = Some (JStr v.(InsertAddress.streetAddress)) /\
  lookup (u16 "city") o = Some (JStr v.(InsertAddress.city)) /\
  lookup (u16 "state") o = Some (JStr v.(InsertAddress.state)) /\
  lookup (u16 "zipCode") o = Some (JStr v.(InsertAddress.zipCode)) /\
  lookup (u16 "country") o = Some (JStr v.(InsertAddress.country)) /\
  valid_input v /\
  match lookup (u16 "apartment") o with
  | None => v.(InsertAddress.apartment) = None
  | Some (JStr s) => v.(InsertAddress.apartment) = Some s
  | Some _ => False
  end /\
  match lookup (u16 "addressType") o with
  | None => v.(InsertAddress.addressType) = u16 "home"
  | Some (JStr s) => v.(InsertAddress.addressType) = s
  | Some _ => False
  end.
Proof.
  split; [apply validation_returns_fields|unfold valid_input].
  - intros (H1 & H2 & H3 & H4 & H5 & (N1 & N2 & N3 & N4 & N5 & N7) & H6 & H7).
    assert (K1 : snd (key [] o "streetAddress" streetAddress_schema)
                 = OK v.(InsertAddress.streetAddress))
      by (apply required_text_OK; now split).
    assert (K2 : snd (key [] o "city" city_schema) = OK v.(InsertAddress.city))
      by (apply required_text_OK; now split).
    assert (K3 : snd (key [] o "state" state_schema)
                 = OK v.(InsertAddress.state))
      by (apply required_text_OK; now split).
    assert (K4 : snd (key [] o "zipCode" zipCode_schema)
                 = OK v.(InsertAddress.zipCode))
      by (apply zipCode_OK; now split).
    assert (K5 : snd (key [] o "country" country_schema)
                 = OK v.(InsertAddress.country))
      by (apply required_text_OK; now split).
    assert (K6 : snd (key [] o "apartment" apartment_schema)
                 = OK v.(InsertAddress.apartment))
      by (apply apartment_OK; exact H6).
    assert (K7 : snd (key [] o "addressType" addressType_schema)
                 = OK v.(InsertAddress.addressType))
      by (apply addressType_OK; now split).
    assert (E : snd (insertAddressSchema [] (Some (JObj o))) = OK v).
    { unfold insertAddressSchema, ZodObject, ap, Zod.pure; cbn [fst snd].
      rewrite K1, K2, K3, K4, K5, K6, K7; destruct v; reflexivity. }
    unfold parse, safeParse.
    destruct (insertAddressSchema [] (Some (JObj o))) as [issues r].
    simpl in E; subst r; destruct issues; reflexivity.
Qed.

(** ** The submission and listing routes *)

(** The submission handler, by the result of validation. *)
Lemma post_addresses_run (body : value) (w : World) :
  post_addresses body w
  = match parse insertAddressSchema body with
    | Return validatedData =>
        (Return (status_json 201
                   (Created (fst (createAddress w.(storage) validatedData)))),
         {| storage := snd (createAddress w.(storage) validatedData);
            trace := w.(trace) ++ [CreateAddress validatedData] |})
    | Throw (ZodError errors) =>
        (Return (status_json 400
                   (ValidationFailed (u16 "Validation error") errors)), w)
    | Throw _ =>
        (Return (status_json 500
                   (Failed (u16 "Failed to save address")
                      (u16 "Unable to save address. Please try again."))), w)
    end.
Proof.
  unfold post_addresses, try_catch, bind, lift, storage_createAddress, ret.
  destruct (parse insertAddressSchema body) as [v|[errors|m| | |]];
    reflexivity.
Qed.



(** X8. A body that is not an object (a missing body, [null], an array, a
    string, a number, a boolean) is answered 400 with a single violation, of
    code [invalid_type] at the empty path, and the world is left as it
    was. *)
Theorem post_addresses_rejects_non_object (body : value) (w : World) :
  (forall o, body <> Some (JObj o)) ->
  post_addresses body w
  = (Return (status_json 400
               (ValidationFailed (u16 "Validation error")
                  [invalid_type (u16 "object") [] body])), w).
Proof.
  intros Hno; rewrite post_addresses_run.
  destruct body as [[| | | | |o]|]; try reflexivity.
  exfalso; exact (Hno o eq_refl).
Qed.

Lemma insertAddressSchema_on_keys o o' :
  (forall k, In k schema_keys -> lookup (u16 k) o = lookup (u16 k) o') ->
  insertAddressSchema [] (Some (JObj o))
  = insertAddressSchema [] (Some (JObj o')).
Proof.
  intros H; unfold insertAddressSchema, ZodObject, key.
  rewrite (H "streetAddress"%string), (H "city"%string), (H "state"%string),
    (H "zipCode"%string), (H "country"%string), (H "apartment"%string),
    (H "addressType"%string) by (unfold schema_keys; simpl; tauto).
  reflexivity.
Qed.

(** X9. Only the seven keys of the schema count: two object bodies that
    agree on them get the same answer and leave the same world, whatever
    other keys they hold.  A submitted [id] or [userId] is thus ignored. *)
Theorem post_addresses_ignores_other_keys
    (o o' : list (jsstring * JS.json)) (w : World) :
  (forall k, In k schema_keys -> lookup (u16 k) o = lookup (u16 k) o') ->
  post_addresses (Some (JObj o)) w = post_addresses (Some (JObj o')) w.
Proof.
  intros H; rewrite !post_addresses_run.
  unfold parse, safeParse; now rewrite (insertAddressSchema_on_keys o o' H).
Qed.

Lemma parse_valid_input (body : value) (v : InsertAddress.t) :
  parse insertAddressSchema body = Return v -> valid_input v.
Proof.
  intros Hp.
  destruct body as [[| | | | |o]|]; try discriminate Hp.
  apply validation_returns_fields in Hp; tauto.
Qed.

(** X10. The submission handler keeps the store valid: when every stored
    record satisfies the constraints of the schema and has no user, so does
    every record stored after the handler ran, whatever the body. *)
Theorem post_addresses_keeps_records_valid (body : value) (w : World) :
  Forall valid_record (getAddresses w.(storage)) ->
  Forall valid_record (getAddresses (snd (post_addresses body w)).(storage)).
Proof.
  intros Hvalid; rewrite post_addresses_run.
  destruct (parse insertAddressSchema body) as [v|[errors|m| | |]] eqn:Hp;
    try exact Hvalid.
  cbn [snd storage]; apply Forall_forall; intros a Ha.
  unfold getAddresses, createAddress in Ha; cbn [snd addresses] in Ha.
  apply Map_values_set in Ha as [->|Ha].
  - apply parse_valid_input in Hp.
    unfold valid_input in Hp; unfold valid_record, spread; simpl.
    repeat split; tauto.
  - rewrite Forall_forall in Hvalid; now apply Hvalid.
Qed.

(** X11. On a reachable store, a body that validates is answered 201 with
    the stored record, whose id is one more than the number of records
    before; the listing handler run next answers 200 with the earlier
    records followed by that record, and [getAddressById] finds it. *)
Theorem post_addresses_then_get_addresses
    (body : value) (v : InsertAddress.t) (w : World) :
  reachable w.(storage) ->
  parse insertAddressSchema body = Return v ->
  let address :=
    spread v (1 + Z.of_nat (List.length (getAddresses w.(storage)))) in
  let w' := snd (post_addresses body w) in
  fst (post_addresses body w) = Return (status_json 201 (Created address)) /\
  fst (get_addresses w')
  = Return (json (Addresses (getAddresses w.(storage) ++ [address]))) /\
  getAddressById w'.(storage) address.(Address.id) = Some address /\
  reachable w'.(storage).
Proof.
  intros Hr Hp address w'.
  destruct (reachable_numbering Hr) as [(Hm & Hkeys & Hc) _].
  assert (Ea : fst (createAddress w.(storage) v) = address)
    by (unfold createAddress, address; simpl; now rewrite Hc).
  assert (Hid : address.(Address.id)
                = (1 + Z.of_nat (List.length (getAddresses w.(storage))))%Z)
    by reflexivity.
  destruct (@Map_set_next _ Address.id w.(storage).(addresses) address
              Hm Hkeys Hid) as (Hvals & _ & _).
  assert (Es : (snd (createAddress w.(storage) v)).(addresses)
               = Map_set w.(storage).(addresses) address.(Address.id) address)
    by (unfold createAddress; cbn [snd addresses]; fold (spread v);
        rewrite Hc; reflexivity).
  unfold w'; rewrite post_addresses_run, Hp; cbn [fst snd storage].
  repeat split.
  - now rewrite Ea.
  - unfold get_addresses, try_catch, bind, storage_getAddresses, ret.
    cbn [fst storage]; unfold getAddresses; rewrite Es, Hvals; reflexivity.
  - unfold getAddressById; rewrite Es; apply Map_get_set_same.
  - now apply reachable_createAddress.
Qed.

(** X12. [apartment] is accepted when absent and when a string, the empty
    string included: it then raises no violation.  Any other value, [null]
    included, makes validation throw with an [invalid_type] violation at
    [apartment]. *)
Theorem apartment_rule (o : list (jsstring * JS.json)) :
  (match lookup (u16 "apartment") o with
   | None | Some (JStr _) => True
   | Some _ => False
   end ->
   forall errors i,
     parse insertAddressSchema (Some (JObj o)) = Throw (ZodError errors) ->
     In i errors -> i.(path) <> [u16 "apartment"]) /\
  (forall x,
     lookup (u16 "apartment") o = Some x -> (forall s, x <> JStr s) ->
     exists errors,
       parse insertAddressSchema (Some (JObj o)) = Throw (ZodError errors) /\
       In (invalid_type (u16 "string") [u16 "apartment"] (Some x)) errors).
Proof.
  assert (Hin : In ("apartment"%string,
                    fst (key [] o "apartment" apartment_schema))
                   (field_issues o))
    by (unfold field_issues; simpl; tauto).
  split.
  - intros Hok errors i Hp Hi Hpath.
    destruct (parse_object o) as [(v & Hv & _)|[Hp' _]]; [congruence|].
    rewrite Hp in Hp'; injection Hp' as ->.
    assert (Hi' : In i (fst (key [] o "apartment" apartment_schema)))
      by (apply (issues_at_key _ Hin); now split).
    unfold key in Hi'.
    destruct (lookup (u16 "apartment") o) as [[| | |s| |]|];
      try contradiction; destruct Hi'.
  - intros x Hx Hnot.
    assert (Hi : In (invalid_type (u16 "string") [u16 "apartment"] (Some x))
                    (fst (insertAddressSchema [] (Some (JObj o))))).
    { apply (issues_at_key _ Hin); unfold key; rewrite Hx.
      destruct x as [| | |s| |]; try (now left).
      exfalso; exact (Hnot s eq_refl). }
    destruct (parse_object o) as [(v & _ & Hnil)|[Hp _]].
    + rewrite Hnil in Hi; destruct Hi.
    + eexists; split; [exact Hp|exact Hi].
Qed.

(** ** The two lookup routes *)

(** X13. The key used for the provider is [GOOGLE_PLACES_API_KEY] when that
    variable is set and not empty, else [GOOGLE_API_KEY] when that one is
    set and not empty, else the empty string; so no key is configured
    exactly when each variable is unset or empty. *)
Theorem GOOGLE_API_KEY_precedence (env : ProcessEnv) :
  (forall c s,
     env.(env_GOOGLE_PLACES_API_KEY) = Some (c :: s) ->
     GOOGLE_API_KEY env = c :: s) /\
  (forall c s,
     env.(env_GOOGLE_PLACES_API_KEY) = None \/
     env.(env_GOOGLE_PLACES_API_KEY) = Some [] ->
     env.(env_GOOGLE_API_KEY) = Some (c :: s) ->
     GOOGLE_API_KEY env = c :: s) /\
  (GOOGLE_API_KEY env = [] <->
   (env.(env_GOOGLE_PLACES_API_KEY) = None \/
    env.(env_GOOGLE_PLACES_API_KEY) = Some []) /\
   (env.(env_GOOGLE_API_KEY) = None \/ env.(env_GOOGLE_API_KEY) = Some [])).
Proof.
  unfold GOOGLE_API_KEY.
  destruct (env_GOOGLE_PLACES_API_KEY env) as [[|c1 s1]|],
           (env_GOOGLE_API_KEY env) as [[|c2 s2]|];
    repeat split; intros; try discriminate; try congruence; auto;
    repeat match goal with
           | H : _ \/ _ |- _ => destruct H
           | H : _ /\ _ |- _ => destruct H
           end; try discriminate; try congruence.
Qed.

(** Closes a goal about a run that has reached its answer. *)
Ltac answered Hfetched :=
  do 2 eexists; split; [reflexivity|];
  split; [reflexivity|]; split; [simpl; auto|];
  apply Hfetched; reflexivity.

(** X14. The suggestion handler always answers, with 200, 503 or 500; it
    never touches the store, and it fetches at most once: nothing, or the
    autocomplete request for the given input with the configured key, which
    happens only for a string of three code units or more and a configured
    key. *)
Theorem get_places_suggestions_effects
    (env : ProcessEnv) (provider : Request -> option FetchResponse)
    (input : option QueryValue) (w : World) :
  exists r w',
    get_places_suggestions env provider input w = (Return r, w') /\
    w'.(storage) = w.(storage) /\
    (r.(statusCode) = 200 \/ r.(statusCode) = 503 \/ r.(statusCode) = 500)%Z /\
    (w'.(trace) = w.(trace) \/
     exists s,
       input = Some (QString s) /\ 3 <= List.length s /\
       GOOGLE_API_KEY env <> [] /\
       w'.(trace)
       = w.(trace) ++ [Fetch (Autocomplete s (GOOGLE_API_KEY env))]).
Proof.
  assert (Hshort : forall i, ~ usable i ->
            exists r w',
              get_places_suggestions env provider i w = (Return r, w') /\
              w'.(storage) = w.(storage) /\
              (r.(statusCode) = 200 \/ r.(statusCode) = 503
               \/ r.(statusCode) = 500)%Z /\
              (w'.(trace) = w.(trace) \/
               exists s,
                 i = Some (QString s) /\ 3 <= List.length s /\
                 GOOGLE_API_KEY env <> [] /\
                 w'.(trace)
                 = w.(trace) ++ [Fetch (Autocomplete s (GOOGLE_API_KEY env))])).
  { intros i Hi; rewrite (suggestions_not_usable env provider w Hi).
    do 2 eexists; split; [reflexivity|]; simpl; auto. }
  destruct input as [[s| |]|];
    try (apply Hshort; intros (s' & E & _); discriminate E).
  destruct (Nat.ltb (List.length s) 3) eqn:Hlen.
  { apply Nat.ltb_lt in Hlen; apply Hshort.
    intros (s' & E & Hs'); injection E as ->; lia. }
  apply Nat.ltb_ge in Hlen.
  unfold get_places_suggestions, try_catch; rewrite (usable_guard _ Hlen).
  destruct (GOOGLE_API_KEY env) as [|c key] eqn:Ek;
    [do 2 eexists; split; [reflexivity|]; simpl; auto|].
  assert (Hkey : c :: key <> []) by discriminate.
  cbn [empty]; unfold bind, fetch, response_json, lift, ret, throw.
  unfold autocomplete_url; destruct (well_formed s);
    [|do 2 eexists; split; [reflexivity|]; simpl; auto].
  assert (Hfetched : forall w',
             w'.(trace) = w.(trace) ++ [Fetch (Autocomplete s (c :: key))] ->
             w'.(trace) = w.(trace) \/
             exists s0,
               Some (QString s) = Some (QString s0) /\
               3 <= List.length s0 /\ c :: key <> [] /\
               w'.(trace) = w.(trace) ++ [Fetch (Autocomplete s0 (c :: key))])
    by (intros w' E; right; exists s; auto).
  destruct (provider _) as [[ok_ st jb]|]; cbn [ok json_body];
    [|answered Hfetched].
  destruct ok_; cbn [negb]; [|answered Hfetched].
  destruct jb as [data|]; [|answered Hfetched].
  destruct (prop (Some data) "status") as [st'|]; [|answered Hfetched].
  destruct (negb (is_string st' "OK") && negb (is_string st' "ZERO_RESULTS"));
    [answered Hfetched|].
  destruct (obind _ _); answered Hfetched.
Qed.

(** X15. The detail handler always answers, with 200, 503 or 500; it never
    touches the store, and it fetches at most once: nothing when no key is
    configured, the details request for the given place id otherwise. *)
Theorem get_places_details_effects
    (env : ProcessEnv) (provider : Request -> option FetchResponse)
    (placeId : jsstring) (w : World) :
  exists r w',
    get_places_details env provider placeId w = (Return r, w') /\
    w'.(storage) = w.(storage) /\
    (r.(statusCode) = 200 \/ r.(statusCode) = 503 \/ r.(statusCode) = 500)%Z /\
    (GOOGLE_API_KEY env = [] -> w' = w /\ r.(statusCode) = 503%Z) /\
    (GOOGLE_API_KEY env <> [] ->
     w'.(trace)
     = w.(trace) ++ [Fetch (PlaceDetails placeId (GOOGLE_API_KEY env))] /\
     r.(statusCode) <> 503%Z).
Proof.
  unfold get_places_details, try_catch.
  destruct (GOOGLE_API_KEY env) as [|c key] eqn:Ek.
  - do 2 eexists; split; [reflexivity|]; simpl; repeat split; auto.
    congruence.
  - cbn [empty]; unfold bind, fetch, response_json, lift, ret, throw.
    destruct (provider _) as [[ok_ st jb]|]; cbn [ok json_body];
      [|do 2 eexists; split; [reflexivity|]; simpl; repeat split; auto;
        discriminate].
    destruct ok_; cbn [negb];
      [|do 2 eexists; split; [reflexivity|]; simpl; repeat split; auto;
        discriminate].
    destruct jb as [data|];
      [|do 2 eexists; split; [reflexivity|]; simpl; repeat split; auto;
        discriminate].
    destruct (prop (Some data) "status") as [st'|];
      [|do 2 eexists; split; [reflexivity|]; simpl; repeat split; auto;
        discriminate].
    destruct (negb (is_string st' "OK"));
      [do 2 eexists; split; [reflexivity|]; simpl; repeat split; auto;
       discriminate|].
    destruct (details_of (Some data)); do 2 eexists;
      (split; [reflexivity|]); simpl; repeat split; auto; discriminate.
Qed.

Lemma mapM_Forall2 (A B : Type) (f : A -> outcome B) (l : list A) :
  forall bs,
    mapM f l = Return bs <-> Forall2 (fun a b => f a = Return b) l bs.
Proof.
  induction l as [|a l IH]; intros bs; simpl.
  - split; [intros E; injection E as <-; constructor|inversion 1; reflexivity].
  - unfold obind; destruct (f a) as [b|e] eqn:Ea.
    + destruct (mapM f l) as [bs'|e] eqn:El.
      * split.
        -- intros E; injection E as <-; constructor; [exact Ea|now apply IH].
        -- inversion 1 as [|a' b' l' bs'' Hb Hrest]; subst.
           apply IH in Hrest; congruence.
      * split; [discriminate|].
        inversion 1 as [|a' b' l' bs'' Hb Hrest]; subst.
        apply IH in Hrest; discriminate Hrest.
    + split; [discriminate|].
      inversion 1 as [|a' b' l' bs'' Hb Hrest]; subst; congruence.
Qed.

Lemma toSuggestion_null (prediction : JS.json) :
  (exists e, toSuggestion prediction = Throw e) <-> prediction = JNull.
Proof.
  split.
  - intros [e He]; destruct prediction as [| | | | |o]; try reflexivity;
      try discriminate He.
    unfold toSuggestion, opt_prop in He; simpl in He.
    destruct (lookup (u16 "structured_formatting") o) as [[| | | | |sf]|];
      discriminate He.
  - intros ->; eexists; reflexivity.
Qed.

Lemma mapM_toSuggestion (l : list JS.json) :
  (~ In JNull l -> exists ss, mapM toSuggestion l = Return ss) /\
  (In JNull l -> exists e, mapM toSuggestion l = Throw e).
Proof.
  induction l as [|p l [IH1 IH2]]; simpl; split.
  - intros _; eexists; reflexivity.
  - intros [].
  - intros Hno.
    destruct (toSuggestion p) as [s|e] eqn:Ep.
    + destruct IH1 as [ss Hss]; [tauto|].
      rewrite Hss; eexists; reflexivity.
    + exfalso; apply Hno; left.
      apply toSuggestion_null; eauto.
  - intros [->|Hin]; [eexists; reflexivity|].
    destruct (toSuggestion p); [|eexists; reflexivity].
    destruct (IH2 Hin) as [e He]; rewrite He; eexists; reflexivity.
Qed.

(** The suggestion handler past its guards, when the provider answers "OK"
    or "ZERO_RESULTS". *)
Lemma suggestions_run env provider s w response data :
  3 <= List.length s -> well_formed s = true -> GOOGLE_API_KEY env <> [] ->
  provider (Autocomplete s (GOOGLE_API_KEY env)) = Some response ->
  answers_OK_or_empty response data ->
  fst (get_places_suggestions env provider (Some (QString s)) w)
  = match predictions <~ prop (Some data) "predictions" ;;
          suggestions_of predictions with
    | Return suggestions => Return (json (Predictions suggestions))
    | Throw _ =>
        Return (status_json 500
                  (Failed (u16 "Failed to fetch address suggestions")
                     (u16 "Address autocomplete service is temporarily unavailable")))
    end.
Proof.
  intros Hs Hwf Hkey Hprov (Hok & Hjson & Hstatus).
  unfold get_places_suggestions, try_catch; rewrite (usable_guard _ Hs).
  destruct (GOOGLE_API_KEY env) as [|c key] eqn:Ek; [congruence|].
  cbn [empty]; unfold bind, fetch, response_json, lift, ret, throw.
  unfold autocomplete_url; rewrite Hwf, Hprov, Hjson, Hok; cbn [negb].
  assert (E : prop (Some data) "status" = Return (provider_status data))
    by (destruct Hstatus as [H|H]; exact (prop_status_OK _ _ H)).
  rewrite E.
  replace (negb (is_string (provider_status data) "OK")
           && negb (is_string (provider_status data) "ZERO_RESULTS"))
    with false
    by (destruct Hstatus as [-> | ->]; cbn [negb andb];
        [reflexivity|now rewrite andb_false_r]).
  destruct (obind _ _); reflexivity.
Qed.

(** X16. When the provider answers "OK" or "ZERO_RESULTS", the suggestion
    handler answers 200 with an empty list if [predictions] is absent or
    null; with one suggestion per prediction, in the provider's order, if it
    is an array without a null element; and 500 if the array holds a null or
    if [predictions] is anything else: one bad prediction fails the whole
    lookup. *)
Theorem suggestions_all_or_nothing
    (env : ProcessEnv) (provider : Request -> option FetchResponse)
    (s : jsstring) (w : World) (response : FetchResponse)
    (o : list (jsstring * JS.json)) :
  3 <= List.length s -> well_formed s = true -> GOOGLE_API_KEY env <> [] ->
  provider (Autocomplete s (GOOGLE_API_KEY env)) = Some response ->
  answers_OK_or_empty response (JObj o) ->
  let run := fst (get_places_suggestions env provider (Some (QString s)) w) in
  match lookup (u16 "predictions") o with
  | None | Some JNull => run = Return (json (Predictions []))
  | Some (JArr l) =>
      (~ In JNull l ->
       exists suggestions,
         run = Return (json (Predictions suggestions)) /\
         Forall2 (fun p x => toSuggestion p = Return x) l suggestions) /\
      (In JNull l -> exists r, run = Return r /\ r.(statusCode) = 500%Z)
  | Some _ => exists r, run = Return r /\ r.(statusCode) = 500%Z
  end.
Proof.
  intros Hs Hwf Hkey Hprov Hans run.
  unfold run; rewrite (@suggestions_run env provider s w response (JObj o)
                        Hs Hwf Hkey Hprov Hans).
  cbn [prop obind].
  destruct (lookup (u16 "predictions") o) as [[| | | |l|]|];
    cbn [suggestions_of]; try reflexivity;
    try (eexists; split; reflexivity).
  destruct (mapM_toSuggestion l) as [Hgood Hbad]; split.
  - intros Hno; destruct (Hgood Hno) as [ss Hss]; rewrite Hss.
    exists ss; split; [reflexivity|now apply mapM_Forall2].
  - intros Hin; destruct (Hbad Hin) as [e He]; rewrite He.
    eexists; split; reflexivity.
Qed.


(** The detail handler with a key, when the provider answers "OK". *)
Lemma details_run env provider placeId w response data :
  GOOGLE_API_KEY env <> [] ->
  provider (PlaceDetails placeId (GOOGLE_API_KEY env)) = Some response ->
  answers_OK response data ->
  fst (get_places_details env provider placeId w)
  = match details_of (Some data) with
    | Return details => Return (json (Details details))
    | Throw _ =>
        Return (status_json 500
                  (Failed (u16 "Failed to fetch address details")
                     (u16 "Address details service is temporarily unavailable")))
    end.
Proof.
  intros Hkey Hprov (Hok & Hjson & Hstatus).
  unfold get_places_details, try_catch.
  destruct (GOOGLE_API_KEY env) as [|c key] eqn:Ek; [congruence|].
  cbn [empty]; unfold bind, fetch, response_json, lift, ret, throw.
  rewrite Hprov, Hjson, Hok, (prop_status_OK _ _ Hstatus), Hstatus.
  cbn [negb]; destruct (details_of (Some data)); reflexivity.
Qed.

(** X18. When the provider answers "OK" without components (no object under
    [result], or [address_components] absent, falsy or empty), the detail
    handler answers 200 with every field of the details absent. *)
Theorem details_without_components
    (env : ProcessEnv) (provider : Request -> option FetchResponse)
    (placeId : jsstring) (w : World) (response : FetchResponse)
    (o : list (jsstring * JS.json)) :
  GOOGLE_API_KEY env <> [] ->
  provider (PlaceDetails placeId (GOOGLE_API_KEY env)) = Some response ->
  answers_OK response (JObj o) ->
  no_components o ->
  fst (get_places_details env provider placeId w)
  = Return (json (Details no_details)).
Proof.
  intros Hkey Hprov Hans Hno.
  rewrite (@details_run env provider placeId w response (JObj o)
             Hkey Hprov Hans).
  unfold no_components in Hno; unfold details_of, opt_prop; cbn [prop obind].
  destruct (lookup (u16 "result") o) as [[| | | | |result]|];
    try reflexivity.
  cbn [nullish prop obind]; unfold or_else.
  destruct Hno as [Hfalsy| ->]; [now rewrite Hfalsy|reflexivity].
Qed.

Lemma prop_not_null (c : JS.json) (k : string) :
  c <> JNull -> exists x, prop (Some c) k = Return x.
Proof.
  destruct c; try congruence; intros _; eexists; reflexivity.
Qed.

Lemma prop_types_not_null (c : JS.json) (t : value) :
  prop (Some c) "types" = Return t -> c <> JNull.
Proof. intros H ->; discriminate H. Qed.

(** A component overrides whatever a component of the same types set. *)
Lemma assign_same_types d c1 c2 :
  same_types c1 c2 ->
  match assign d c1 with
  | Return d1 => assign d1 c2 = assign d c2
  | Throw e => assign d c2 = Throw e
  end.
Proof.
  unfold same_types, assign; intros Hsame.
  destruct (prop (Some c1) "types") as [t|e] eqn:E1.
  - symmetry in Hsame.
    pose proof (prop_types_not_null E1) as N1.
    pose proof (prop_types_not_null Hsame) as N2.
    destruct (prop_not_null "long_name" N1) as [l1 L1].
    destruct (prop_not_null "short_name" N1) as [s1 S1].
    destruct (prop_not_null "long_name" N2) as [l2 L2].
    destruct (prop_not_null "short_name" N2) as [s2 S2].
    rewrite ?Hsame, ?L1, ?S1, ?L2, ?S2; cbn [obind].
    destruct (includes t "street_number") as [[|]|];
      destruct (includes t "route") as [[|]|];
      destruct (includes t "locality") as [[|]|];
      destruct (includes t "administrative_area_level_1") as [[|]|];
      destruct (includes t "postal_code") as [[|]|];
      destruct (includes t "country") as [[|]|];
      cbn [obind]; reflexivity.
  - rewrite <- Hsame; reflexivity.
Qed.

(** X19. Of two adjacent components with the same [types] the later one
    wins: the loop over the components gives the same result, details or
    exception, as without the earlier one. *)
Theorem details_later_component_wins
    (details : PlacesDetails) (c1 c2 : JS.json) (rest : list JS.json) :
  same_types c1 c2 ->
  forEach details (c1 :: c2 :: rest) = forEach details (c2 :: rest).
Proof.
  intros Hsame; pose proof (assign_same_types details Hsame) as H.
  cbn [forEach]; destruct (assign details c1) as [d1|e]; cbn [obind].
  - now rewrite H.
  - now rewrite H.
Qed.

Lemma assign_unmatched (details : PlacesDetails) (c : JS.json) :
  unmatched c -> assign details c = Return details.
Proof.
  intros (o & l & -> & Ht & Hno); unfold assign; cbn [prop]; rewrite Ht.
  cbn [obind includes].
  rewrite (Hno "street_number"%string), (Hno "route"%string),
    (Hno "locality"%string), (Hno "administrative_area_level_1"%string),
    (Hno "postal_code"%string), (Hno "country"%string)
    by (unfold detail_tags; simpl; tauto).
  reflexivity.
Qed.

(** X20. Components whose types hold none of the six tags are ignored:
    wherever they stand among the components, the loop gives the same
    result as without them. *)
Theorem details_ignore_unmatched
    (details : PlacesDetails) (components : list JS.json)
    (skip : JS.json -> bool) :
  (forall c, In c components -> skip c = true -> unmatched c) ->
  forEach details components
  = forEach details (filter (fun c => negb (skip c)) components).
Proof.
  revert details; induction components as [|c cs IH]; intros details Hskip;
    [reflexivity|].
  cbn [forEach filter]; destruct (skip c) eqn:Ec; cbn [negb].
  - rewrite (assign_unmatched details (Hskip c (or_introl eq_refl) Ec)).
    cbn [obind]; apply IH; intros c' Hc'; apply Hskip; now right.
  - cbn [forEach]; destruct (assign details c) as [d'|e]; cbn [obind];
      [|reflexivity].
    apply IH; intros c' Hc'; apply Hskip; now right.
Qed.

(** ** The autocomplete widget *)

Lemma last_cons (A : Type) (l : list A) (a d : A) :
  last (a :: l) d = last l a.
Proof.
  revert a d; induction l as [|b l IH]; intros a d; [reflexivity|].
  change (last (a :: b :: l) d) with (last (b :: l) d).
  rewrite (IH b d), (IH b a); reflexivity.
Qed.

Lemma visit_city_state (acc : Widget.Selected) (c : Widget.AddressComponent) :
  (Widget.visit acc c).(Widget.city)
  = (if Widget.has c "locality" then c.(Widget.long_name)
     else acc.(Widget.city)) /\
  (Widget.visit acc c).(Widget.state)
  = (if Widget.has c "administrative_area_level_1"
     then c.(Widget.short_name) else acc.(Widget.state)).
Proof.
  unfold Widget.visit.
  destruct (Widget.has c "street_number"), (Widget.has c "route"),
    (Widget.has c "locality"), (Widget.has c "administrative_area_level_1");
    split; reflexivity.
Qed.

Lemma visit_street (acc : Widget.Selected) (c : Widget.AddressComponent) :
  (Widget.visit acc c).(Widget.street)
  = (if Widget.has c "street_number" then c.(Widget.long_name) ++ u16 " "
     else acc.(Widget.street))
    ++ (if Widget.has c "route" then c.(Widget.long_name) else []).
Proof.
  unfold Widget.visit.
  destruct (Widget.has c "street_number"), (Widget.has c "route"),
    (Widget.has c "locality"), (Widget.has c "administrative_area_level_1");
    cbn [Widget.street]; rewrite ?app_nil_r; reflexivity.
Qed.

Lemma fold_visit_city_state (l : list Widget.AddressComponent) :
  forall acc,
    (fold_left Widget.visit l acc).(Widget.city)
    = last (List.map Widget.long_name
              (filter (fun c => Widget.has c "locality") l))
           acc.(Widget.city) /\
    (fold_left Widget.visit l acc).(Widget.state)
    = last (List.map Widget.short_name
              (filter (fun c => Widget.has c "administrative_area_level_1") l))
           acc.(Widget.state).
Proof.
  induction l as [|c l IH]; intros acc; [split; reflexivity|].
  cbn [fold_left filter].
  destruct (IH (Widget.visit acc c)) as [IHc IHs].
  destruct (visit_city_state acc c) as [Ec Es].
  rewrite IHc, IHs, Ec, Es; split.
  - destruct (Widget.has c "locality"); [|reflexivity].
    cbn [List.map]; now rewrite last_cons.
  - destruct (Widget.has c "administrative_area_level_1"); [|reflexivity].
    cbn [List.map]; now rewrite last_cons.
Qed.

Lemma fold_visit_street (l : list Widget.AddressComponent) :
  forall acc,
    (forall c, In c l -> Widget.has c "street_number" = false) ->
    (fold_left Widget.visit l acc).(Widget.street)
    = acc.(Widget.street)
      ++ List.concat (List.map Widget.long_name
                        (filter (fun c => Widget.has c "route") l)).
Proof.
  induction l as [|c l IH]; intros acc Hno.
  - simpl; now rewrite app_nil_r.
  - cbn [fold_left filter]; rewrite IH by (intros; apply Hno; now right).
    rewrite visit_street, (Hno c (or_introl eq_refl)).
    destruct (Widget.has c "route"); cbn [List.map List.concat];
      rewrite <- ?app_assoc; reflexivity.
Qed.

(** X21. The street the widget computes starts at the last component typed
    street number: it is that component's long name, a space, and the long
    names of the route components from there on; a route that comes before
    the street number is dropped.  Without a street number it is the long
    names of all route components. *)
Theorem widget_street
    (before after : list Widget.AddressComponent)
    (number : Widget.AddressComponent) (selected : Widget.Selected) :
  (forall c, In c after -> Widget.has c "street_number" = false) ->
  (Widget.has number "street_number" = true ->
   Widget.place_changed (Some (before ++ number :: after)) = Return selected ->
   selected.(Widget.street)
   = number.(Widget.long_name) ++ u16 " "
     ++ List.concat (List.map Widget.long_name
                       (filter (fun c => Widget.has c "route")
                          (number :: after)))) /\
  (Widget.place_changed (Some after) = Return selected ->
   selected.(Widget.street)
   = List.concat (List.map Widget.long_name
                    (filter (fun c => Widget.has c "route") after))).
Proof.
  intros Hafter; split.
  - intros Hnum Hrun; injection Hrun as <-.
    rewrite fold_left_app; cbn [fold_left].
    rewrite (fold_visit_street after _ Hafter), visit_street, Hnum.
    cbn [filter]; destruct (Widget.has number "route");
      cbn [List.map List.concat]; rewrite <- ?app_assoc; reflexivity.
  - intros Hrun; injection Hrun as <-.
    now rewrite (fold_visit_street after _ Hafter).
Qed.

(** X22. The city the widget computes is the long name of the last component
    typed locality and the state the short name of the last one typed
    first-level administrative area, each empty when there is no such
    component; a place without components makes the listener throw. *)
Theorem widget_city_state
    (address_components : option (list Widget.AddressComponent)) :
  match address_components with
  | None => Widget.place_changed address_components = Throw TypeError
  | Some components =>
      exists selected,
        Widget.place_changed address_components = Return selected /\
        selected.(Widget.city)
        = last (List.map Widget.long_name
                  (filter (fun c => Widget.has c "locality") components)) [] /\
        selected.(Widget.state)
        = last (List.map Widget.short_name
                  (filter
                     (fun c => Widget.has c "administrative_area_level_1")
                     components)) []
  end.
Proof.
  destruct address_components as [components|]; [|reflexivity].
  eexists; split; [reflexivity|].
  exact (fold_visit_city_state components _).
Qed.

(** ** Filling the form *)

(** X23. After the details of a place arrive, the street of the form is the
    street number, a space and the route when both are present; the one
    that is present when only one is; and the text of the search box when
    neither is ("present" meaning a non-empty string). *)
Theorem autofill_street (details : Form.Details) (st : Form.State) :
  let street :=
    (Form.onSuccess details st).(Form.values).(InsertAddress.streetAddress) in
  (forall n r,
     details.(Form.streetNumber) = Some n -> n <> [] ->
     details.(Form.route) = Some r -> r <> [] ->
     street = n ++ u16 " " ++ r) /\
  (forall n,
     details.(Form.streetNumber) = Some n -> n <> [] ->
     Form.present details.(Form.route) = false ->
     street = n) /\
  (forall r,
     Form.present details.(Form.streetNumber) = false ->
     details.(Form.route) = Some r -> r <> [] ->
     street = r) /\
  (Form.present details.(Form.streetNumber) = false ->
   Form.present details.(Form.route) = false ->
   street = st.(Form.searchQuery)).
Proof.
  destruct details as [number route locality area postal country].
  cbn [Form.streetNumber Form.route].
  assert (Hstreet : forall v0 : InsertAddress.t,
            (Form.set_if_present Form.set_country country
               (Form.set_if_present Form.set_zipCode postal
                  (Form.set_if_present Form.set_state area
                     (Form.set_if_present Form.set_city locality v0)))).(InsertAddress.streetAddress)
            = v0.(InsertAddress.streetAddress)).
  { intros v0; destruct locality as [[|? ?]|], area as [[|? ?]|],
      postal as [[|? ?]|], country as [[|? ?]|]; reflexivity. }
  unfold Form.onSuccess; cbn [Form.values Form.streetNumber Form.route
    Form.locality Form.administrativeAreaLevel1 Form.postalCode Form.country].
  rewrite Hstreet; cbn [Form.set_streetAddress InsertAddress.streetAddress].
  repeat split.
  - intros n r -> Hn -> Hr; destruct n; [congruence|]; destruct r;
      [congruence|reflexivity].
  - intros n -> Hn Hr; destruct n; [congruence|].
    destruct route as [[|? ?]|]; try discriminate Hr; reflexivity.
  - intros r Hn -> Hr; destruct r; [congruence|].
    destruct number as [[|? ?]|]; try discriminate Hn; reflexivity.
  - intros Hn Hr.
    destruct number as [[|? ?]|]; try discriminate Hn;
      destruct route as [[|? ?]|]; try discriminate Hr; reflexivity.
Qed.

(** X24. Filling the form from the details never empties a field: city,
    state, postal code and country keep their value unless the details hold
    a non-empty one, the street is empty afterwards only if the search box
    was; apartment and address type are never changed.  The search box and
    the error are cleared and the suggestions hidden. *)
Theorem autofill_never_blanks (details : Form.Details) (st : Form.State) :
  let v := st.(Form.values) in
  let st' := Form.onSuccess details st in
  let v' := st'.(Form.values) in
  (v.(InsertAddress.city) <> [] -> v'.(InsertAddress.city) <> []) /\
  (v.(InsertAddress.state) <> [] -> v'.(InsertAddress.state) <> []) /\
  (v.(InsertAddress.zipCode) <> [] -> v'.(InsertAddress.zipCode) <> []) /\
  (v.(InsertAddress.country) <> [] -> v'.(InsertAddress.country) <> []) /\
  (v'.(InsertAddress.streetAddress) = [] -> st.(Form.searchQuery) = []) /\
  v'.(InsertAddress.apartment) = v.(InsertAddress.apartment) /\
  v'.(InsertAddress.addressType) = v.(InsertAddress.addressType) /\
  st'.(Form.searchQuery) = [] /\
  st'.(Form.showSuggestions) = false /\
  st'.(Form.apiError) = None.
Proof.
  destruct details as [number route locality area postal country].
  unfold Form.onSuccess; cbn [Form.values Form.streetNumber Form.route
    Form.locality Form.administrativeAreaLevel1 Form.postalCode Form.country
    Form.searchQuery Form.showSuggestions Form.apiError].
  destruct locality as [[|? ?]|], area as [[|? ?]|],
    postal as [[|? ?]|], country as [[|? ?]|];
    cbn [Form.set_if_present Form.set_city Form.set_state Form.set_zipCode
         Form.set_country Form.set_streetAddress InsertAddress.city
         InsertAddress.state InsertAddress.zipCode InsertAddress.country
         InsertAddress.streetAddress InsertAddress.apartment
         InsertAddress.addressType];
    repeat split; try tauto; try discriminate;
    (destruct number as [[|? ?]|], route as [[|? ?]|];
     cbn [Form.filter_present Form.join]; try tauto;
     intros E; try discriminate E;
     apply app_eq_nil in E as [E _]; discriminate E).
Qed.

(** ** Concrete runs of the further properties *)

Lemma store_numbering_witness :
  reachable one_stored /\
  List.map Address.id (getAddresses one_stored) = [1%Z] /\
  one_stored.(currentAddressId) = 2%Z.
Proof.
  assert (H : reachable one_stored)
    by (apply reachable_createAddress, reachable_new).
  split; [exact H|].
  destruct (@store_numbering one_stored H) as [(_ & Hids & Hc) _].
  split; [exact Hids|exact Hc].
Defined.

Lemma getAddressById_by_rank_witness :
  reachable one_stored /\
  getAddressById one_stored 1 = nth_error (getAddresses one_stored) 0 /\
  getAddressById one_stored 2 = None.
Proof.
  assert (H : reachable one_stored)
    by (apply reachable_createAddress, reachable_new).
  split; [exact H|]; split.
  - exact (proj1 (@getAddressById_by_rank one_stored 1 H)).
  - exact (proj1 (@getAddressById_by_rank one_stored 2 H)).
Defined.

Lemma createAddress_appends_witness :
  reachable one_stored /\
  getAddresses (snd (createAddress one_stored blank_street_validated))
  = getAddresses one_stored ++ [spread blank_street_validated 2].
Proof.
  assert (H : reachable one_stored)
    by (apply reachable_createAddress, reachable_new).
  split; [exact H|].
  destruct (@createAddress_appends one_stored blank_street_validated H)
    as [Happ _].
  exact Happ.
Defined.

Lemma getUserByUsername_after_createUser_witness :
  reachable one_user /\
  getUserByUsername (snd (createUser one_user alice_again)) (u16 "alice")
  = Some (fst (createUser constructor alice)).
Proof.
  assert (H : reachable one_user)
    by (apply reachable_createUser, reachable_new).
  split; [exact H|].
  exact (@getUserByUsername_after_createUser
           one_user alice_again (u16 "alice") H).
Defined.

Lemma post_addresses_rejects_non_object_witness :
  (forall o, @None JS.json <> Some (JObj o)) /\
  post_addresses None start
  = (Return (status_json 400
               (ValidationFailed (u16 "Validation error")
                  [ {| code := u16 "invalid_type"; path := [];
                       message := u16 "Required" |} ])), start).
Proof.
  assert (H : forall o, @None JS.json <> Some (JObj o)) by discriminate.
  split; [exact H|].
  exact (@post_addresses_rejects_non_object None start H).
Defined.

Lemma post_addresses_ignores_other_keys_witness :
  (forall k, In k schema_keys ->
             lookup (u16 k) main_street_with_ids_props
             = lookup (u16 k) main_street_props) /\
  post_addresses (Some (JObj main_street_with_ids_props)) start
  = post_addresses main_street start.
Proof.
  assert (H : forall k, In k schema_keys ->
                        lookup (u16 k) main_street_with_ids_props
                        = lookup (u16 k) main_street_props).
  { intros k [<-|[<-|[<-|[<-|[<-|[<-|[<-|[]]]]]]]]; reflexivity. }
  split; [exact H|].
  exact (@post_addresses_ignores_other_keys
           main_street_with_ids_props main_street_props start H).
Defined.

Lemma post_addresses_keeps_records_valid_witness :
  Forall valid_record (getAddresses start.(storage)) /\
  Forall valid_record
    (getAddresses (snd (post_addresses main_street start)).(storage)).
Proof.
  assert (H : Forall valid_record (getAddresses start.(storage)))
    by constructor.
  split; [exact H|].
  exact (@post_addresses_keeps_records_valid main_street start H).
Defined.

Lemma post_addresses_then_get_addresses_witness :
  reachable one_stored_world.(storage) /\
  parse insertAddressSchema blank_street = Return blank_street_validated /\
  fst (get_addresses (snd (post_addresses blank_street one_stored_world)))
  = Return (json (Addresses [spread main_street_validated 1;
                             spread blank_street_validated 2])).
Proof.
  assert (H : reachable one_stored_world.(storage))
    by (apply reachable_createAddress, reachable_new).
  assert (Hp : parse insertAddressSchema blank_street
               = Return blank_street_validated) by reflexivity.
  split; [exact H|]; split; [exact Hp|].
  destruct (@post_addresses_then_get_addresses
              blank_street blank_street_validated one_stored_world H Hp)
    as (_ & Hlist & _).
  exact Hlist.
Defined.

Lemma apartment_rule_witness :
  lookup (u16 "apartment") null_apartment_props = Some JNull /\
  exists errors,
    parse insertAddressSchema (Some (JObj null_apartment_props))
    = Throw (ZodError errors) /\
    In {| code := u16 "invalid_type"; path := [u16 "apartment"];
          message := u16 "Expected string, received null" |} errors.
Proof.
  assert (H : lookup (u16 "apartment") null_apartment_props = Some JNull)
    by reflexivity.
  split; [exact H|].
  destruct (@apartment_rule null_apartment_props) as [_ Hbad].
  apply (Hbad JNull H); discriminate.
Defined.

Lemma suggestions_all_or_nothing_witness :
  answers_OK_or_empty (ok_response two_predictions) two_predictions /\
  exists suggestions,
    fst (get_places_suggestions with_key (answering two_predictions)
           (Some (QString (u16 "1 Main"))) start)
    = Return (json (Predictions suggestions)) /\
    List.length suggestions = 2.
Proof.
  assert (H : answers_OK_or_empty (ok_response two_predictions)
                two_predictions)
    by (repeat split; left; reflexivity).
  split; [exact H|].
  assert (Hs : 3 <= List.length (u16 "1 Main")) by (simpl; lia).
  assert (Hwf : well_formed (u16 "1 Main") = true) by reflexivity.
  assert (Hkey : GOOGLE_API_KEY with_key <> [])
    by (vm_compute; discriminate).
  pose proof (@suggestions_all_or_nothing
                with_key (answering two_predictions) (u16 "1 Main") start
                (ok_response two_predictions) two_predictions_props
                Hs Hwf Hkey eq_refl H) as Hrun.
  cbv zeta in Hrun.
  change (lookup (u16 "predictions") two_predictions_props)
    with (Some (JArr match lookup (u16 "predictions") two_predictions_props with
                     | Some (JArr l) => l
                     | _ => []
                     end)) in Hrun.
  cbv iota in Hrun; destruct Hrun as [Hgood _].
  destruct Hgood as (suggestions & Hrun & Hall).
  - intros [E|[E|[]]]; discriminate E.
  - exists suggestions; split; [exact Hrun|].
    apply Forall2_length in Hall; rewrite <- Hall; reflexivity.
Defined.


Lemma details_without_components_witness :
  answers_OK (ok_response (JObj no_result)) (JObj no_result) /\
  no_components no_result /\
  fst (get_places_details with_key (answering (JObj no_result))
         (u16 "place") start)
  = Return (json (Details no_details)).
Proof.
  assert (H : answers_OK (ok_response (JObj no_result)) (JObj no_result))
    by (repeat split).
  assert (Hno : no_components no_result) by exact I.
  assert (Hkey : GOOGLE_API_KEY with_key <> [])
    by (vm_compute; discriminate).
  split; [exact H|]; split; [exact Hno|].
  exact (@details_without_components
           with_key (answering (JObj no_result)) (u16 "place") start
           (ok_response (JObj no_result)) no_result Hkey eq_refl H Hno).
Defined.

Lemma details_later_component_wins_witness :
  same_types shelbyville springfield /\
  forEach no_details [shelbyville; springfield]
  = forEach no_details [springfield].
Proof.
  assert (H : same_types shelbyville springfield) by reflexivity.
  split; [exact H|].
  exact (@details_later_component_wins
           no_details shelbyville springfield [] H).
Defined.

Lemma details_ignore_unmatched_witness :
  unmatched plus_code /\
  forEach no_details [plus_code; springfield; plus_code]
  = forEach no_details [springfield].
Proof.
  assert (Hu : unmatched plus_code).
  { eexists; eexists; split; [reflexivity|]; split; [reflexivity|].
    intros tag [<-|[<-|[<-|[<-|[<-|[<-|[]]]]]]]; reflexivity. }
  split; [exact Hu|].
  apply (@details_ignore_unmatched
           no_details [plus_code; springfield; plus_code] is_plus_code).
  intros c [<-|[<-|[<-|[]]]] Hc; try exact Hu; discriminate Hc.
Defined.

Lemma widget_street_witness :
  (forall c, In c [w_route; w_city] ->
             Widget.has c "street_number" = false) /\
  Widget.has w_number "street_number" = true /\
  (forall selected,
     Widget.place_changed (Some ([w_route] ++ w_number :: [w_route; w_city]))
     = Return selected ->
     selected.(Widget.street) = u16 "1 Main St").
Proof.
  assert (H : forall c, In c [w_route; w_city] ->
                        Widget.has c "street_number" = false)
    by (intros c [<-|[<-|[]]]; reflexivity).
  assert (Hn : Widget.has w_number "street_number" = true) by reflexivity.
  split; [exact H|]; split; [exact Hn|].
  intros selected Hrun.
  destruct (@widget_street [w_route] [w_route; w_city] w_number selected H)
    as [Hstreet _].
  exact (Hstreet Hn Hrun).
Defined.
